(** * teamigrate: a shallow embedding of [main.go] and its properties

    The program is one loop around [migrateRepo]: read a line from standard
    input, find a GitHub URL in it, GET the repository's description from
    GitHub, POST a migration request to Gitea, log the outcome.

    Go strings are byte sequences, and so are Rocq's [string]s (a list of
    8-bit [ascii]): every Go string of the program is a [string] here.
    The standard-library packages the program calls are modelled as far as
    [migrateRepo] observes them:
    - [regexp]: a backtracking matcher with leftmost-first semantics and
      capture groups, for the operators the pattern of the program uses;
    - [encoding/json]: the decoding of a JSON value into a struct and the
      encoding of a struct as a JSON value are modelled; the text layer
      (scanner, string unquoting, string quoting) is a parameter, see
      [Library];
    - [net/http], [bufio], [os], [log], [fmt]: the environment supplies what
      they read, and every output is recorded in a trace. *)

From Stdlib Require Import String Ascii List ZArith Lia Bool.
Import ListNotations.
Open Scope string_scope.
Set Warnings "-register-all".

(** ** Strings *)

Definition nl : string := String "010" "".
Definition dquote : ascii := "034".

(** [s[:hi]] for a Go string: a run-time panic unless [0 <= hi <= len(s)]. *)
Definition slice_to (s : string) (hi : Z) : option string :=
  if ((0 <=? hi) && (hi <=? Z.of_nat (String.length s)))%Z
  then Some (substring 0 (Z.to_nat hi) s)
  else None.

Fixpoint all_chars (p : ascii -> bool) (s : string) : bool :=
  match s with
  | EmptyString => true
  | String a s' => p a && all_chars p s'
  end.

(** [stops p s]: [s] is empty or its first byte fails [p]. *)
Definition stops (p : ascii -> bool) (s : string) : Prop :=
  match s with
  | EmptyString => True
  | String a _ => p a = false
  end.

Fixpoint ends_with_nl (s : string) : bool :=
  match s with
  | EmptyString => false
  | String a EmptyString => Ascii.eqb a "010"
  | String _ s' => ends_with_nl s'
  end.

(** ** Package regexp

    Go's [regexp] works on UTF-8 runes; the pattern of the program names
    ASCII bytes only, and an ASCII byte is never part of a longer rune, so
    matching byte by byte finds the same match. *)

Module Regexp.

(** A one-byte matcher: the literal [c], or the negated class [[^c]]. *)
Inductive cls :=
| Byte (c : ascii)
| NotByte (c : ascii).

Definition accepts (c : cls) (a : ascii) : bool :=
  match c with
  | Byte b => Ascii.eqb a b
  | NotByte b => negb (Ascii.eqb a b)
  end.

Inductive regex :=
| Eps
| Chr (c : cls)
| PlusChr (c : cls)                (* c+ , greedy *)
| Cat (r1 r2 : regex)
| Group (i : nat) (r : regex).     (* the i-th parenthesised subexpression *)

Fixpoint literal (s : string) : regex :=
  match s with
  | EmptyString => Eps
  | String c s' => Cat (Chr (Byte c)) (literal s')
  end.

(** The text between the suffix [s] and its later suffix [s']. *)
Definition consumed (s s' : string) : string :=
  substring 0 (String.length s - String.length s') s.

Definition caps := list (nat * string).

Section Run.
Context {R : Type}.

(** [c+] against [s]: longer runs are tried before shorter ones. *)
Fixpoint plus_loop (p : ascii -> bool) (s : string) (k : string -> option R) : option R :=
  match s with
  | String a s' =>
      if p a then
        match plus_loop p s' k with
        | Some r => Some r
        | None => k s'
        end
      else None
  | EmptyString => None
  end.

(** Backtracking match of [r] at the start of [s]; [k] is what must match
    after it. *)
Fixpoint run (r : regex) (s : string) (cs : caps) (k : string -> caps -> option R) : option R :=
  match r with
  | Eps => k s cs
  | Chr c =>
      match s with
      | String a s' => if accepts c a then k s' cs else None
      | EmptyString => None
      end
  | PlusChr c => plus_loop (accepts c) s (fun s' => k s' cs)
  | Cat r1 r2 => run r1 s cs (fun s' cs' => run r2 s' cs' k)
  | Group i r1 => run r1 s cs (fun s' cs' => k s' ((i, consumed s s') :: cs'))
  end.
End Run.

Definition match_at (r : regex) (s : string) : option (string * caps) :=
  run r s [] (fun s' cs => Some (s', cs)).

(** The leftmost match: the first start position at which [r] matches. *)
Fixpoint leftmost (r : regex) (s : string) : option (string * caps) :=
  match match_at r s with
  | Some (rest, cs) => Some (consumed s rest, cs)
  | None =>
      match s with
      | String _ s' => leftmost r s'
      | EmptyString => None
      end
  end.

Fixpoint NumSubexp (r : regex) : nat :=
  match r with
  | Cat a b => NumSubexp a + NumSubexp b
  | Group _ a => S (NumSubexp a)
  | _ => 0
  end.

Fixpoint group (i : nat) (cs : caps) : string :=
  match cs with
  | [] => ""
  | (j, t) :: cs' => if Nat.eqb i j then t else group i cs'
  end.

(** [re.FindStringSubmatch(s)]: the match and its groups, [nil] when there
    is none. *)
Definition FindStringSubmatch (r : regex) (s : string) : list string :=
  match leftmost r s with
  | None => []
  | Some (whole, cs) => whole :: map (fun i => group i cs) (seq 1 (NumSubexp r))
  end.

End Regexp.

Import Regexp.

(** [regexp.MustCompile(`github\.com/([^/]+)/([^/]+)`)] *)
Definition re : regex :=
  Cat (literal "github.com/")
      (Cat (Group 1 (PlusChr (NotByte "/")))
           (Cat (Chr (Byte "/"))
                (Group 2 (PlusChr (NotByte "/"))))).

(** ** Errors *)

Inductive error :=
| EOF                                        (* io.EOF *)
| SyntaxError                                (* *json.SyntaxError *)
| UnmarshalTypeError (value field : string)  (* *json.UnmarshalTypeError *)
| UrlError (url : string)                    (* *url.Error, from http.NewRequest *)
| IOError (msg : string).                    (* a failure of the network or of a stream *)

(** ** Package encoding/json *)

(** A JSON value as the decoder sees it: strings and keys unquoted, a number
    as its literal text, the members of an object in the order of the text. *)
Inductive json :=
| JNull
| JBool (b : bool)
| JNum (lit : string)
| JStr (s : string)
| JArr (items : list json)
| JObj (members : list (string * json)).

(** What the program takes from its libraries without looking inside:
    - [json_syntax]: the value a JSON text denotes, [None] when the text is
      not valid JSON ([encoding/json]'s scanner and unquoting);
    - [json_text]: the text [encoding/json] writes for a value;
    - [url_ok]: whether [net/url] parses the string, that is whether
      [http.NewRequest] returns a request. *)
Class Library := {
  json_syntax : string -> option json;
  json_text : json -> string;
  url_ok : string -> bool
}.

(** [strconv.ParseInt(s, 10, 64)] *)
Definition digit (a : ascii) : option Z :=
  let n := Z.of_nat (nat_of_ascii a) in
  if ((48 <=? n) && (n <=? 57))%Z then Some (n - 48)%Z else None.

Fixpoint digits (s : string) (acc : Z) : option Z :=
  match s with
  | EmptyString => Some acc
  | String a s' =>
      match digit a with
      | Some d => digits s' (acc * 10 + d)%Z
      | None => None
      end
  end.

Definition ParseInt (s : string) : option Z :=
  let '(neg, body) := match s with
                      | String "-" t => (true, t)
                      | String "+" t => (false, t)
                      | _ => (false, s)
                      end in
  match body with
  | EmptyString => None
  | _ =>
      match digits body 0 with
      | Some n =>
          let v := if neg then (- n)%Z else n in
          if ((- 2 ^ 63 <=? v) && (v <? 2 ^ 63))%Z then Some v else None
      | None => None
      end
  end.

(** The Go types of the fields the program decodes. *)
Inductive kind := KString | KBool | KInt64.

Definition gotype (k : kind) : Type :=
  match k with
  | KString => string
  | KBool => bool
  | KInt64 => Z
  end.

Inductive stored (A : Type) :=
| Unchanged                 (* null: the field keeps its value *)
| Stored (a : A)
| Mismatch (what : string). (* an UnmarshalTypeError is saved, decoding goes on *)
Arguments Unchanged {A}.
Arguments Stored {A} a.
Arguments Mismatch {A} what.

(** The decoder's store of one JSON value into a field of kind [k]. *)
Definition literalStore (k : kind) (j : json) : stored (gotype k) :=
  match j with
  | JNull => Unchanged
  | JStr s =>
      match k return stored (gotype k) with
      | KString => Stored s
      | _ => Mismatch "string"
      end
  | JBool b =>
      match k return stored (gotype k) with
      | KBool => Stored b
      | _ => Mismatch "bool"
      end
  | JNum lit =>
      match k return stored (gotype k) with
      | KInt64 =>
          match ParseInt lit with
          | Some n => Stored n
          | None => Mismatch ("number " ++ lit)
          end
      | _ => Mismatch "number"
      end
  | JArr _ => Mismatch "array"
  | JObj _ => Mismatch "object"
  end.

(** A struct field with a [json:"..."] tag. *)
Record field (T : Type) := {
  fname : string;
  fkind : kind;
  fset : gotype fkind -> T -> T
}.
Arguments fname {T}.
Arguments fkind {T}.
Arguments fset {T}.

(** The decoder's case folding of a key: ASCII letters to upper case, and the
    two non-ASCII letters whose simple fold is an ASCII letter (U+017F to S,
    U+212A to K); other bytes are kept, which cannot make a key equal to
    an ASCII field name. *)
Fixpoint foldName (s : string) : string :=
  match s with
  | EmptyString => EmptyString
  | String "197" (String "191" t) => String "S" (foldName t)
  | String "226" (String "132" (String "170" t)) => String "K" (foldName t)
  | String c t =>
      let n := nat_of_ascii c in
      String (if (97 <=? n)%nat && (n <=? 122)%nat then ascii_of_nat (n - 32) else c)
             (foldName t)
  end.

(** The field a key names: an exact match first, a match up to case next. *)
Definition lookup_field {T} (fields : list (field T)) (key : string) : option (field T) :=
  match find (fun f => String.eqb (fname f) key) fields with
  | Some f => Some f
  | None => find (fun f => String.eqb (foldName (fname f)) (foldName key)) fields
  end.

(** The decoder keeps the first error it saved. *)
Definition saveError (saved : option error) (e : error) : option error :=
  match saved with
  | None => Some e
  | Some _ => saved
  end.

(** A JSON object into a struct, member by member, in the order of the text:
    an unknown key is skipped, a later member overwrites an earlier one. *)
Fixpoint object {T} (fields : list (field T)) (members : list (string * json)) (v : T)
  (saved : option error) : T * option error :=
  match members with
  | [] => (v, saved)
  | (key, j) :: rest =>
      match lookup_field fields key with
      | None => object fields rest v saved
      | Some f =>
          match literalStore (fkind f) j with
          | Unchanged => object fields rest v saved
          | Stored a => object fields rest (fset f a v) saved
          | Mismatch what =>
              object fields rest v (saveError saved (UnmarshalTypeError what (fname f)))
          end
      end
  end.

(** A JSON value into a struct. *)
Definition value_into {T} (fields : list (field T)) (j : json) (v : T) : T * option error :=
  match j with
  | JNull => (v, None)
  | JObj members => object fields members v None
  | JBool _ => (v, Some (UnmarshalTypeError "bool" ""))
  | JNum _ => (v, Some (UnmarshalTypeError "number" ""))
  | JStr _ => (v, Some (UnmarshalTypeError "string" ""))
  | JArr _ => (v, Some (UnmarshalTypeError "array" ""))
  end.

(** [json.Unmarshal(data, &v)] for a struct [v]: the struct after the call
    and the error returned. *)
Definition Unmarshal `{Library} {T} (fields : list (field T)) (data : string) (v : T)
  : T * option error :=
  match json_syntax data with
  | None => (v, Some SyntaxError)
  | Some j => value_into fields j v
  end.

(** ** The types of the program *)

Record programOptions := {
  GiteaInstance : string;
  GitHubToken : string;
  GiteaToken : string;
  GiteaOwner : string
}.

Module GitHubRepo.
Record t := mk {
  CloneURL : string;
  Description : string;
  Name : string;
  Private : bool
}.

(** [var repo GitHubRepo] *)
Definition zero : t := mk "" "" "" false.

(** The [json] tags of the struct. *)
Definition fields : list (field t) :=
  [ {| fname := "clone_url"; fkind := KString;
       fset := fun a v => mk a (Description v) (Name v) (Private v) |};
    {| fname := "description"; fkind := KString;
       fset := fun a v => mk (CloneURL v) a (Name v) (Private v) |};
    {| fname := "name"; fkind := KString;
       fset := fun a v => mk (CloneURL v) (Description v) a (Private v) |};
    {| fname := "private"; fkind := KBool;
       fset := fun a v => mk (CloneURL v) (Description v) (Name v) a |} ].
End GitHubRepo.

Module MigrateRepoOptions.
Record t := mk {
  AuthToken : string;
  CloneAddr : string;
  Description : string;
  Mirror : bool;
  Private : bool;
  RepoName : string;
  RepoOwner : string;
  Service : string;
  Wiki : bool
}.

(** The JSON object the encoder writes for the struct: one member per
    field, named by its [json] tag, in the order of the declaration. *)
Definition to_json (m : t) : json :=
  JObj [ ("auth_token", JStr (AuthToken m));
         ("clone_addr", JStr (CloneAddr m));
         ("description", JStr (Description m));
         ("mirror", JBool (Mirror m));
         ("private", JBool (Private m));
         ("repo_name", JStr (RepoName m));
         ("repo_owner", JStr (RepoOwner m));
         ("service", JStr (Service m));
         ("wiki", JBool (Wiki m)) ].
End MigrateRepoOptions.

Module GiteaRepo.
Record t := mk {
  Id : Z;
  HtmlUrl : string
}.

(** [var giteaRepo GiteaRepo] *)
Definition zero : t := mk 0 "".

Definition fields : list (field t) :=
  [ {| fname := "id"; fkind := KInt64; fset := fun a v => mk a (HtmlUrl v) |};
    {| fname := "html_url"; fkind := KString; fset := fun a v => mk (Id v) a |} ].
End GiteaRepo.

(** [json.Marshal(migrateOptions)]: a struct of strings and booleans is
    always encoded, the error is [nil]. *)
Definition Marshal `{Library} (m : MigrateRepoOptions.t) : string * option error :=
  (json_text (MigrateRepoOptions.to_json m), None).

(** ** Package net/http *)

Record Request := {
  Method : string;
  URL : string;
  Header : list (string * string);
  Payload : option string
}.

(** A response body: the bytes [io.ReadAll] returns, the error it returns
    with them, and the error [Close] returns. *)
Record ReadCloser := {
  data : string;
  read_err : option error;
  close_err : option error
}.

Record Response := {
  StatusCode : Z;
  Body : ReadCloser
}.

(** [http.NewRequest(method, url, body)] *)
Definition NewRequest `{Library} (method url : string) (body : option string)
  : Request + error :=
  if url_ok url
  then inl {| Method := method; URL := url; Header := []; Payload := body |}
  else inr (UrlError url).

(** [req.Header.Set(key, value)]: the value replaces those of the key. (The
    key is kept as written; net/http normalises its letter case.) *)
Definition Header_Set (req : Request) (key value : string) : Request :=
  {| Method := Method req;
     URL := URL req;
     Header := filter (fun kv => negb (String.eqb (fst kv) key)) (Header req) ++ [(key, value)];
     Payload := Payload req |}.

(** [io.ReadAll(body)] *)
Definition ReadAll (b : ReadCloser) : string * option error :=
  (data b, read_err b).

(** ** The environment and the trace *)

(** What the program writes, in order. *)
Inductive event :=
| Stdout (text : string)     (* fmt.Print, fmt.Println, fmt.Printf *)
| Log (text : string)        (* a line of the logger, after its time stamp *)
| LogErr (e : error)         (* log.Println(err) *)
| Sent (req : Request).      (* a request handed to an http.Client *)

(** - [env]: the environment variables, unset ones reading as the empty
      string ([os.Getenv]);
    - [options]: the struct that [main] declares and [migrateRepo] receives
      a pointer to;
    - [stdin]: what the next reads of standard input return, one chunk per
      read; no chunk left is the end of the input, and so is an empty chunk
      (after which more may come, as on a terminal);
    - [network]: what the next requests are answered with;
    - [trace]: the events so far. *)
Record state := {
  env : string -> string;
  options : programOptions;
  stdin : list string;
  network : list (Response + error);
  trace : list event
}.

(** A call either returns or ends in a run-time panic. *)
Inductive result (A : Type) :=
| Done (a : A)
| Panicked (msg : string).
Arguments Done {A} a.
Arguments Panicked {A} msg.

Definition M (A : Type) : Type := state -> result A * state.

Definition ret {A} (a : A) : M A := fun st => (Done a, st).

Definition bind {A B} (m : M A) (f : A -> M B) : M B :=
  fun st =>
    match m st with
    | (Done a, st') => f a st'
    | (Panicked msg, st') => (Panicked msg, st')
    end.

Notation "x <- m ;; k" := (bind m (fun x => k))
  (at level 61, m at next level, right associativity).
Notation "m ;; k" := (bind m (fun _ => k))
  (at level 61, right associativity).

Definition panic {A} (msg : string) : M A := fun st => (Panicked msg, st).

Definition emit (e : event) : M unit :=
  fun st =>
    (Done tt, {| env := env st; options := options st; stdin := stdin st;
                 network := network st; trace := trace st ++ [e] |}).

(** A read through the pointer [options]. *)
Definition load {A} (proj : programOptions -> A) : M A :=
  fun st => (Done (proj (options st)), st).

(** The assignment [options := ...] of [main]. *)
Definition assign_options (o : programOptions) : M unit :=
  fun st =>
    (Done tt, {| env := env st; options := o; stdin := stdin st;
                 network := network st; trace := trace st |}).

(** [os.Getenv(name)] *)
Definition Getenv (name : string) : M string :=
  fun st => (Done (env st name), st).

(** [defer f()]: [cleanup] runs when [body] is left, by return or by panic. *)
Definition defer {A} (cleanup : M unit) (body : M A) : M A :=
  fun st =>
    match body st with
    | (r, st') => (r, snd (cleanup st'))
    end.

(** *** Package fmt and package log *)

Definition Print (text : string) : M unit := emit (Stdout text).

(** [log.Println(s)] *)
Definition Println (s : string) : M unit := emit (Log (s ++ nl)).

(** [log.Printf]: the logger ends the line unless the text already does. *)
Definition Printf (text : string) : M unit :=
  emit (Log (if ends_with_nl text then text else text ++ nl)).

Definition LogError (e : error) : M unit := emit (LogErr e).

(** *** Package bufio *)

(** [s] up to and including its first newline, and what follows it. *)
Fixpoint cut_line (s : string) : option (string * string) :=
  match s with
  | EmptyString => None
  | String a s' =>
      if Ascii.eqb a "010" then Some (String a "", s')
      else match cut_line s' with
           | Some (line, rest) => Some (String a line, rest)
           | None => None
           end
  end.

(** [ReadString('\n')] on a fresh [bufio.Reader]: chunks are read until one
    holds a newline; the text through the newline is returned, and what the
    reader had buffered behind it is lost with the reader. At the end of the
    input the text read so far is returned with [io.EOF]: the end of the
    input is a read when no chunk is left, or a read of no byte (a read of
    [os.Stdin] that brings nothing is [io.EOF]); what later reads would
    bring stays in the input. *)
Fixpoint read_line (acc : string) (chunks : list string) : string * option error * list string :=
  match chunks with
  | [] => (acc, Some EOF, [])
  | c :: rest =>
      match cut_line c with
      | Some (line, _) => (acc ++ line, None, rest)
      | None =>
          match c with
          | EmptyString => (acc, Some EOF, rest)
          | _ => read_line (acc ++ c) rest
          end
      end
  end.

(** [bufio.NewReader(os.Stdin).ReadString('\n')] *)
Definition ReadString : M (string * option error) :=
  fun st =>
    let '(line, err, rest) := read_line "" (stdin st) in
    (Done (line, err),
     {| env := env st; options := options st; stdin := rest;
        network := network st; trace := trace st |}).

(** *** Package net/http, the client *)

(** [client.Do(req)]: the request leaves, the next answer of the network
    comes back; a network that is out of answers refuses the connection. *)
Definition Do (req : Request) : M (Response + error) :=
  fun st =>
    let st' := {| env := env st; options := options st; stdin := stdin st;
                  network := tl (network st); trace := trace st ++ [Sent req] |} in
    match network st with
    | [] => (Done (inr (IOError "connection refused")), st')
    | answer :: _ => (Done answer, st')
    end.

(** The deferred closure of the program: close the body, log a failure. *)
Definition Close (b : ReadCloser) : M unit :=
  match close_err b with
  | Some err => LogError err
  | None => ret tt
  end.

(** ** The program *)

Definition prompt : string := nl ++ "Enter the GitHub URL: ".

(** [loadOptions] *)
Definition loadOptions : M programOptions :=
  instance <- Getenv "GITEA_INSTANCE" ;;
  ghToken <- Getenv "GITHUB_TOKEN" ;;
  gtToken <- Getenv "GITEA_TOKEN" ;;
  owner <- Getenv "GITEA_OWNER" ;;
  ret {| GiteaInstance := instance; GitHubToken := ghToken;
         GiteaToken := gtToken; GiteaOwner := owner |}.

(** The struct literal [MigrateRepoOptions{...}] of [migrateRepo], with the
    [authToken] computed before it. *)
Definition migrateOptions (opts : programOptions) (repo : GitHubRepo.t) : MigrateRepoOptions.t :=
  let authToken := if GitHubRepo.Private repo then GitHubToken opts else "" in
  {| MigrateRepoOptions.AuthToken := authToken;
     MigrateRepoOptions.CloneAddr := GitHubRepo.CloneURL repo;
     MigrateRepoOptions.Description := GitHubRepo.Description repo;
     MigrateRepoOptions.Mirror := true;
     MigrateRepoOptions.Private := GitHubRepo.Private repo;
     MigrateRepoOptions.RepoName := GitHubRepo.Name repo;
     MigrateRepoOptions.RepoOwner := GiteaOwner opts;
     MigrateRepoOptions.Service := "github";
     MigrateRepoOptions.Wiki := true |}.

(** [migrateRepo(options)]: every [return] of the source is the end of a
    branch here. *)
Definition migrateRepo `{Library} : M unit :=
  Print prompt ;;
  read <- ReadString ;;
  let url := fst read in
  match slice_to url (Z.of_nat (String.length url) - 1) with
  | None => panic "runtime error: slice bounds out of range [:-1]"
  | Some url =>
    let match_ := FindStringSubmatch re url in
    if negb (Nat.eqb (List.length match_) 3) then
      Println "Invalid GitHub URL"
    else
      let username := nth 1 match_ "" in
      let repoName := nth 2 match_ "" in
      match NewRequest "GET" ("https://api.github.com/repos/" ++ username ++ "/" ++ repoName) None with
      | inr err => LogError err
      | inl req =>
        ghToken <- load GitHubToken ;;
        let req := Header_Set req "Authorization" ("Bearer " ++ ghToken) in
        let req := Header_Set req "Accept" "application/vnd.github+json" in
        let req := Header_Set req "X-GitHub-Api-Version" "2022-11-28" in
        Println "Getting GitHub repo info..." ;;
        answer <- Do req ;;
        match answer with
        | inr err => LogError err
        | inl resp =>
          defer (Close (Body resp)) (
            match ReadAll (Body resp) with
            | (_, Some err) => LogError err
            | (giteaBody, None) =>
              match Unmarshal GitHubRepo.fields giteaBody GitHubRepo.zero with
              | (_, Some err) => LogError err
              | (repo, None) =>
                Printf ("Got repo: " ++ GitHubRepo.Name repo) ;;
                opts <- load (fun o => o) ;;
                match Marshal (migrateOptions opts repo) with
                | (_, Some err) => LogError err
                | (jsonData, None) =>
                  instance <- load GiteaInstance ;;
                  match NewRequest "POST" ("https://" ++ instance ++ "/api/v1/repos/migrate")
                                   (Some jsonData) with
                  | inr err => LogError err
                  | inl req =>
                    let req := Header_Set req "Content-Type" "application/json" in
                    gtToken <- load GiteaToken ;;
                    let req := Header_Set req "Authorization" ("Bearer " ++ gtToken) in
                    Println "Creating Gitea repository..." ;;
                    answer <- Do req ;;
                    match answer with
                    | inr err => LogError err
                    | inl resp =>
                      defer (Close (Body resp)) (
                        match ReadAll (Body resp) with
                        | (_, Some err) => LogError err
                        | (giteaBody, None) =>
                          match Unmarshal GiteaRepo.fields giteaBody GiteaRepo.zero with
                          | (_, Some err) => LogError err
                          | (giteaRepo, None) =>
                            if (StatusCode resp =? 403)%Z then Println "Forbidden"
                            else if (StatusCode resp =? 409)%Z then
                              Println "Repository with this name already exists"
                            else if (StatusCode resp =? 422)%Z then Println "Wrong input?"
                            else if (GiteaRepo.Id giteaRepo =? 0)%Z then
                              Println "Repository creation failed"
                            else
                              Printf ("Repository created: " ++ GiteaRepo.HtmlUrl giteaRepo ++ nl)
                          end
                        end)
                    end
                  end
                end
              end
            end)
        end
      end
  end.

(** The first [n] rounds of the loop [for { migrateRepo(&options) }]. *)
Fixpoint rounds `{Library} (n : nat) : M unit :=
  match n with
  | O => ret tt
  | S n' => migrateRepo ;; rounds n'
  end.

(** [main], followed for [n] rounds of its loop. *)
Definition main `{Library} (n : nat) : M unit :=
  opts <- loadOptions ;;
  assign_options opts ;;
  Print ("- Welcome to teamigrate -" ++ nl) ;;
  instance <- load GiteaInstance ;;
  Print ("GITEA_INSTANCE: " ++ instance ++ nl) ;;
  owner <- load GiteaOwner ;;
  Print ("GITEA_OWNER: " ++ owner ++ nl) ;;
  rounds n.

(** ** A reference instance of [Library]

    The theorems below hold for every [Library]. To run the program on
    concrete texts, here is one: a reader of the JSON grammar (RFC 8259), a
    writer with the escapes of [encoding/json], and the control-character
    check of [net/url]. *)

Module Reference.

Definition code (a : ascii) : Z := Z.of_nat (nat_of_ascii a).
Definition byte_of (n : Z) : ascii := ascii_of_nat (Z.to_nat n).

Definition is_ws (a : ascii) : bool :=
  let n := code a in ((n =? 32) || (n =? 9) || (n =? 10) || (n =? 13))%Z.

Fixpoint skip_ws (s : string) : string :=
  match s with
  | String a s' => if is_ws a then skip_ws s' else s
  | EmptyString => s
  end.

Definition hex (a : ascii) : option Z :=
  let n := code a in
  if ((48 <=? n) && (n <=? 57))%Z then Some (n - 48)%Z
  else if ((97 <=? n) && (n <=? 102))%Z then Some (n - 87)%Z
  else if ((65 <=? n) && (n <=? 70))%Z then Some (n - 55)%Z
  else None.

Definition hex4 (a b c d : ascii) : option Z :=
  match hex a, hex b, hex c, hex d with
  | Some x, Some y, Some z, Some w => Some (((x * 16 + y) * 16 + z) * 16 + w)%Z
  | _, _, _, _ => None
  end.

(** The UTF-8 encoding of a code point. *)
Definition utf8 (cp : Z) : string :=
  if (cp <? 128)%Z then String (byte_of cp) ""
  else if (cp <? 2048)%Z then
    String (byte_of (192 + cp / 64)) (String (byte_of (128 + cp mod 64)) "")
  else if (cp <? 65536)%Z then
    String (byte_of (224 + cp / 4096))
      (String (byte_of (128 + (cp / 64) mod 64)) (String (byte_of (128 + cp mod 64)) ""))
  else
    String (byte_of (240 + cp / 262144))
      (String (byte_of (128 + (cp / 4096) mod 64))
         (String (byte_of (128 + (cp / 64) mod 64)) (String (byte_of (128 + cp mod 64)) ""))).

Definition replacement : string := utf8 65533.

(** What a pending high surrogate that found no partner leaves behind. *)
Definition flush (pending : option Z) : string :=
  match pending with
  | Some _ => replacement
  | None => ""
  end.

(** The text of a string literal after its opening quote: the string it
    denotes and what follows the closing quote. *)
Fixpoint unquote (pending : option Z) (s : string) : option (string * string) :=
  match s with
  | EmptyString => None
  | String "\" (String "u" (String a (String b (String c (String d s'))))) =>
      match hex4 a b c d with
      | None => None
      | Some u =>
          let continue (out : string) (p : option Z) :=
            match unquote p s' with
            | Some (t, rest) => Some (out ++ t, rest)
            | None => None
            end in
          if ((55296 <=? u) && (u <? 56320))%Z then continue (flush pending) (Some u)
          else if ((56320 <=? u) && (u <? 57344))%Z then
            match pending with
            | Some hi => continue (utf8 (65536 + (hi - 55296) * 1024 + (u - 56320))) None
            | None => continue replacement None
            end
          else continue (flush pending ++ utf8 u) None
      end
  | String "\" (String e s') =>
      let simple :=
        match e with
        | "034"%char => Some "034"%char
        | "\"%char => Some "\"%char
        | "/"%char => Some "/"%char
        | "b"%char => Some "008"%char
        | "f"%char => Some "012"%char
        | "n"%char => Some "010"%char
        | "r"%char => Some "013"%char
        | "t"%char => Some "009"%char
        | _ => None
        end in
      match simple with
      | None => None
      | Some x =>
          match unquote None s' with
          | Some (t, rest) => Some (flush pending ++ String x t, rest)
          | None => None
          end
      end
  | String a s' =>
      if Ascii.eqb a dquote then Some (flush pending, s')
      else if (code a <? 32)%Z then None
      else match unquote None s' with
           | Some (t, rest) => Some (flush pending ++ String a t, rest)
           | None => None
           end
  end.

Definition is_digit (a : ascii) : bool := ((48 <=? code a) && (code a <=? 57))%Z.

(** The longest run of digits at the start of [s], and the rest. *)
Fixpoint span_digits (s : string) : string * string :=
  match s with
  | String a s' =>
      if is_digit a then let '(d, rest) := span_digits s' in (String a d, rest)
      else ("", s)
  | EmptyString => ("", s)
  end.

(** A number literal at the start of [s]. *)
Definition number (s : string) : option (string * string) :=
  let '(sign, s1) := match s with String "-" t => ("-", t) | _ => ("", s) end in
  let '(int, s2) := span_digits s1 in
  match int with
  | EmptyString => None
  | String "0" (String _ _) => None
  | _ =>
      let frac :=
        match s2 with
        | String "." t =>
            let '(d, rest) := span_digits t in
            match d with EmptyString => None | _ => Some ("." ++ d, rest) end
        | _ => Some ("", s2)
        end in
      match frac with
      | None => None
      | Some (f, s3) =>
          let exp :=
            match s3 with
            | String e t =>
                if Ascii.eqb e "e" || Ascii.eqb e "E" then
                  let '(sg, t') := match t with
                                   | String "+" u => ("+", u)
                                   | String "-" u => ("-", u)
                                   | _ => ("", t)
                                   end in
                  let '(d, rest) := span_digits t' in
                  match d with
                  | EmptyString => None
                  | _ => Some (String e (sg ++ d), rest)
                  end
                else Some ("", s3)
            | EmptyString => Some ("", s3)
            end in
          match exp with
          | None => None
          | Some (e, s4) => Some (sign ++ int ++ f ++ e, s4)
          end
      end
  end.

Definition keyword (w : string) (v : json) (s : string) : option (json * string) :=
  if prefix w s then Some (v, substring (String.length w) (String.length s - String.length w) s)
  else None.

(** A value at the start of [s] (after white space), and the rest. Every
    call uses up one unit of [fuel]. *)
Fixpoint value (fuel : nat) (s : string) : option (json * string) :=
  match fuel with
  | O => None
  | S f =>
      match skip_ws s with
      | String "n" _ as t => keyword "null" JNull t
      | String "t" _ as t => keyword "true" (JBool true) t
      | String "f" _ as t => keyword "false" (JBool false) t
      | String "[" t =>
          match skip_ws t with
          | String "]" rest => Some (JArr [], rest)
          | _ => elements f t []
          end
      | String "{" t =>
          match skip_ws t with
          | String "}" rest => Some (JObj [], rest)
          | _ => members f t []
          end
      | String a t as whole =>
          if Ascii.eqb a dquote then
            match unquote None t with
            | Some (str, rest) => Some (JStr str, rest)
            | None => None
            end
          else
            match number whole with
            | Some (lit, rest) => Some (JNum lit, rest)
            | None => None
            end
      | EmptyString => None
      end
  end
with elements (fuel : nat) (s : string) (acc : list json) : option (json * string) :=
  match fuel with
  | O => None
  | S f =>
      match value f s with
      | None => None
      | Some (v, rest) =>
          match skip_ws rest with
          | String "," rest' => elements f rest' (v :: acc)
          | String "]" rest' => Some (JArr (rev (v :: acc)), rest')
          | _ => None
          end
      end
  end
with members (fuel : nat) (s : string) (acc : list (string * json)) : option (json * string) :=
  match fuel with
  | O => None
  | S f =>
      match skip_ws s with
      | String q t =>
          if Ascii.eqb q dquote then
            match unquote None t with
            | None => None
            | Some (key, rest) =>
                match skip_ws rest with
                | String ":" rest' =>
                    match value f rest' with
                    | None => None
                    | Some (v, rest'') =>
                        match skip_ws rest'' with
                        | String "," r => members f r ((key, v) :: acc)
                        | String "}" r => Some (JObj (rev ((key, v) :: acc)), r)
                        | _ => None
                        end
                    end
                | _ => None
                end
            end
          else None
      | EmptyString => None
      end
  end.

Definition read (s : string) : option json :=
  match value (2 * String.length s + 2) s with
  | Some (v, rest) =>
      match skip_ws rest with
      | EmptyString => Some v
      | _ => None
      end
  | None => None
  end.

Definition hex_digit (n : Z) : ascii :=
  if (n <? 10)%Z then byte_of (48 + n) else byte_of (87 + n).

Definition escape (a : ascii) : string :=
  let n := code a in
  if Ascii.eqb a dquote then String "\" (String dquote "")
  else if Ascii.eqb a "\" then "\\"
  else if (n =? 10)%Z then "\n"
  else if (n =? 13)%Z then "\r"
  else if (n =? 9)%Z then "\t"
  else if ((n <? 32) || (n =? 60) || (n =? 62) || (n =? 38))%Z then
    "\u00" ++ String (hex_digit (n / 16)) (String (hex_digit (n mod 16)) "")
  else String a "".

Fixpoint quote_body (s : string) : string :=
  match s with
  | EmptyString => ""
  | String a s' => escape a ++ quote_body s'
  end.

Definition quote (s : string) : string :=
  String dquote (quote_body s ++ String dquote "").

Fixpoint write (j : json) : string :=
  match j with
  | JNull => "null"
  | JBool true => "true"
  | JBool false => "false"
  | JNum lit => lit
  | JStr s => quote s
  | JArr items => "[" ++ String.concat "," (map write items) ++ "]"
  | JObj ms =>
      "{" ++ String.concat "," (map (fun kv => quote (fst kv) ++ ":" ++ write (snd kv)) ms) ++ "}"
  end.

(** [net/url] refuses a URL that holds an ASCII control character. *)
Definition no_control (s : string) : bool :=
  all_chars (fun a => negb ((code a <? 32) || (code a =? 127))%Z) s.

Definition library : Library :=
  {| json_syntax := read; json_text := write; url_ok := no_control |}.

(** A JSON text written with ['] for the quotation mark. *)
Fixpoint ticks (s : string) : string :=
  match s with
  | EmptyString => ""
  | String a s' => String (if Ascii.eqb a "'" then dquote else a) (ticks s')
  end.

End Reference.

(** ** The vocabulary of the specification *)

(** *** The URL pattern, in the words of the specification

    [github.com/<owner>/<repo>], where [<owner>] and [<repo>] are each one
    or more characters excluding [/]. *)

Definition host : string := "github.com/".

Definition not_slash (a : ascii) : bool := accepts (NotByte "/") a.

Definition segment (s : string) : Prop :=
  s <> "" /\ all_chars not_slash s = true.

(** [s] holds the pattern with owner [o] and repo [r], after [pre] and
    before [post]. *)
Definition occurrence (s pre o r post : string) : Prop :=
  s = pre ++ host ++ o ++ "/" ++ r ++ post /\ segment o /\ segment r.

(** *** The line read from standard input *)

(** What [ReadString] returns in state [st]. *)
Definition input_line (st : state) : string :=
  fst (fst (read_line "" (stdin st))).

(** Standard input after that read. *)
Definition input_rest (st : state) : list string :=
  snd (read_line "" (stdin st)).

(** *** The two requests, as the specification lists them *)

Definition github_request (opts : programOptions) (owner repo : string) : Request :=
  {| Method := "GET";
     URL := "https://api.github.com/repos/" ++ owner ++ "/" ++ repo;
     Header := [ ("Authorization", "Bearer " ++ GitHubToken opts);
                 ("Accept", "application/vnd.github+json");
                 ("X-GitHub-Api-Version", "2022-11-28") ];
     Payload := None |}.

Definition gitea_url (opts : programOptions) : string :=
  "https://" ++ GiteaInstance opts ++ "/api/v1/repos/migrate".

Definition gitea_request (opts : programOptions) (body : string) : Request :=
  {| Method := "POST";
     URL := gitea_url opts;
     Header := [ ("Content-Type", "application/json");
                 ("Authorization", "Bearer " ++ GiteaToken opts) ];
     Payload := Some body |}.

(** *** The outcome classification, in the order of the specification *)

Inductive outcome :=
| Aborted (e : error)
| Forbidden
| AlreadyExists
| WrongInput
| CreationFailed
| Created (url : string).

(** 1. a failure aborts; 2. status 403; 3. status 409; 4. status 422;
    5. identifier zero; 6. otherwise success. *)
Definition classify (failure : option error) (status id : Z) (url : string) : outcome :=
  match failure with
  | Some e => Aborted e
  | None =>
      if (status =? 403)%Z then Forbidden
      else if (status =? 409)%Z then AlreadyExists
      else if (status =? 422)%Z then WrongInput
      else if (id =? 0)%Z then CreationFailed
      else Created url
  end.

(** The log entry that reports an outcome. *)
Definition report (o : outcome) : event :=
  match o with
  | Aborted e => LogErr e
  | Forbidden => Log ("Forbidden" ++ nl)
  | AlreadyExists => Log ("Repository with this name already exists" ++ nl)
  | WrongInput => Log ("Wrong input?" ++ nl)
  | CreationFailed => Log ("Repository creation failed" ++ nl)
  | Created url => Log ("Repository created: " ++ url ++ nl)
  end.

(** The failure of an answer: of the transport, of the read of the body, or
    of the decoding of the body into [T]. *)
Definition failure `{Library} {T} (fields : list (field T)) (zero : T)
  (answer : Response + error) : option error :=
  match answer with
  | inr e => Some e
  | inl resp =>
      match read_err (Body resp) with
      | Some e => Some e
      | None => snd (Unmarshal fields (data (Body resp)) zero)
      end
  end.

(** The struct an answer decodes into. *)
Definition decoded `{Library} {T} (fields : list (field T)) (zero : T)
  (answer : Response + error) : T :=
  match answer with
  | inr _ => zero
  | inl resp => fst (Unmarshal fields (data (Body resp)) zero)
  end.

Definition status_of (answer : Response + error) : Z :=
  match answer with
  | inr _ => 0%Z
  | inl resp => StatusCode resp
  end.

(** The outcome of Gitea's answer. *)
Definition gitea_outcome `{Library} (answer : Response + error) : outcome :=
  let repo := decoded GiteaRepo.fields GiteaRepo.zero answer in
  classify (failure GiteaRepo.fields GiteaRepo.zero answer) (status_of answer)
           (GiteaRepo.Id repo) (GiteaRepo.HtmlUrl repo).

(** What the deferred closure of an answer's body logs. *)
Definition closing (answer : Response + error) : list event :=
  match answer with
  | inr _ => []
  | inl resp =>
      match close_err (Body resp) with
      | Some e => [LogErr e]
      | None => []
      end
  end.

(** The log entry [log.Printf("Got repo: %s", name)] writes. *)
Definition got_repo (name : string) : event :=
  let text := "Got repo: " ++ name in
  Log (if ends_with_nl text then text else text ++ nl).

(** The same answer under another status code. *)
Definition with_status (code : Z) (answer : Response + error) : Response + error :=
  match answer with
  | inr e => inr e
  | inl resp => inl {| StatusCode := code; Body := Body resp |}
  end.

(** *** Decoding a JSON object *)

(** Some member of the object names the field [name]. *)
Definition names_field {T} (fields : list (field T)) (name : string)
  (members : list (string * json)) : bool :=
  existsb (fun kv =>
             match lookup_field fields (fst kv) with
             | Some f => String.eqb (fname f) name
             | None => false
             end) members.

(** Every member that names a field holds a value of the field's type, or
    null. *)
Definition well_typed {T} (fields : list (field T)) (members : list (string * json)) : bool :=
  forallb (fun kv =>
             match lookup_field fields (fst kv) with
             | None => true
             | Some f =>
                 match literalStore (fkind f) (snd kv) with
                 | Mismatch _ => false
                 | _ => true
                 end
             end) members.

(** *** One iteration, in the words of the specification *)

(** The answer the next request gets. *)
Definition next_answer (net : list (Response + error)) : Response + error :=
  match net with
  | [] => inr (IOError "connection refused")
  | answer :: _ => answer
  end.

(** The state [st] with another network. *)
Definition with_network (st : state) (net : list (Response + error)) : state :=
  {| env := env st; options := options st; stdin := stdin st;
     network := net; trace := trace st |}.

(** The state [st] with another standard input. *)
Definition with_stdin (st : state) (chunks : list string) : state :=
  {| env := env st; options := options st; stdin := chunks;
     network := network st; trace := trace st |}.

(** The migration requester, from Gitea's answer on: the outcome is
    reported and the body is closed. *)
Definition after_gitea `{Library} (answer : Response + error) : list event :=
  report (gitea_outcome answer) :: closing answer.

(** The metadata fetcher, from GitHub's answer on: a transport, read or
    decode error is logged and the iteration abandoned; otherwise the
    descriptor is logged and the migration request is built from it and
    sent. The status code of GitHub's answer is not looked at. *)
Definition after_github `{Library} (opts : programOptions) (github gitea : Response + error)
  : list event :=
  match failure GitHubRepo.fields GitHubRepo.zero github with
  | Some e => [LogErr e]
  | None =>
      let repo := decoded GitHubRepo.fields GitHubRepo.zero github in
      got_repo (GitHubRepo.Name repo) ::
      (if url_ok (gitea_url opts) then
         Log ("Creating Gitea repository..." ++ nl) ::
         Sent (gitea_request opts
                 (json_text (MigrateRepoOptions.to_json (migrateOptions opts repo)))) ::
         after_gitea gitea
       else [LogErr (UrlError (gitea_url opts))])
  end ++ closing github.

(** Whether the iteration gets as far as the request to Gitea. *)
Definition posts `{Library} (opts : programOptions) (github : Response + error) : bool :=
  match failure GitHubRepo.fields GitHubRepo.zero github with
  | Some _ => false
  | None => url_ok (gitea_url opts)
  end.

(** ** The effects of a call on the configuration *)

(** A computation that leaves the environment variables and the struct
    behind [options] as it found them. *)
Definition preserves_options {A} (m : M A) : Prop :=
  forall st, options (snd (m st)) = options st /\ env (snd (m st)) = env st.

(** ** The scenario of the specification

    Input [https://github.com/acme/widgets]; GitHub answers with the
    description of a public repository, Gitea with status 201 and the
    repository it created. *)

Module Scenario.

Definition config : programOptions :=
  {| GiteaInstance := "gitea.local";
     GitHubToken := "github-token";
     GiteaToken := "gitea-token";
     GiteaOwner := "acme" |}.

(** The configuration when [GITHUB_TOKEN] is not set. *)
Definition config_without_token : programOptions :=
  {| GiteaInstance := "gitea.local";
     GitHubToken := "";
     GiteaToken := "gitea-token";
     GiteaOwner := "acme" |}.

Definition answer (code : Z) (body : string) : Response + error :=
  inl {| StatusCode := code;
         Body := {| data := body; read_err := None; close_err := None |} |}.

Definition widgets : string :=
  Reference.ticks
    "{'name':'widgets','clone_url':'https://github.com/acme/widgets.git','private':false,'description':'A widget'}".

Definition secret : string :=
  Reference.ticks
    "{'name':'secret','clone_url':'https://github.com/acme/secret.git','private':true}".

Definition not_found : string :=
  Reference.ticks
    "{'message':'Not Found','documentation_url':'https://docs.github.com/rest'}".

Definition created : string :=
  Reference.ticks "{'id':42,'html_url':'https://gitea.local/acme/widgets'}".

Definition not_created : string :=
  Reference.ticks "{'id':0,'html_url':''}".

Definition public_repo : GitHubRepo.t :=
  GitHubRepo.mk "https://github.com/acme/widgets.git" "A widget" "widgets" false.

(** The state in which the user's next chunks of input are [chunks] and the
    network will answer with [net]. *)
Definition start (chunks : list string) (net : list (Response + error)) : state :=
  {| env := fun _ => ""; options := config; stdin := chunks; network := net; trace := [] |}.

End Scenario.

(** ** More vocabulary: what an iteration adds *)

(** The message of the run-time panic of [url[:len(url)-1]] on the empty
    string. *)
Definition panic_message : string := "runtime error: slice bounds out of range [:-1]".

(** The requests among some events, in order. *)
Fixpoint requests (events : list event) : list Request :=
  match events with
  | [] => []
  | Sent req :: rest => req :: requests rest
  | _ :: rest => requests rest
  end.

(** The texts written to standard output among some events, in order. *)
Fixpoint printed (events : list event) : list string :=
  match events with
  | [] => []
  | Stdout text :: rest => text :: printed rest
  | _ :: rest => printed rest
  end.

(** The events one call of [migrateRepo] adds to the trace of [st]. *)
Definition added `{Library} (st : state) : list event :=
  skipn (List.length (trace st)) (trace (snd (migrateRepo st))).

Definition not_newline (a : ascii) : bool := negb (Ascii.eqb a "010").

(** The number of calls of [migrateRepo] that the first [n] rounds of the
    loop make from [st]: a call that panics is the last one. *)
Fixpoint begun `{Library} (n : nat) (st : state) : nat :=
  match n with
  | O => 0
  | S n' =>
      match migrateRepo st with
      | (Done _, st') => S (begun n' st')
      | (Panicked _, _) => 1
      end
  end.

(** The three lines [main] prints before its loop. *)
Definition banner (opts : programOptions) : list string :=
  [ "- Welcome to teamigrate -" ++ nl;
    "GITEA_INSTANCE: " ++ GiteaInstance opts ++ nl;
    "GITEA_OWNER: " ++ GiteaOwner opts ++ nl ].

(** The state in which [main] enters its loop: the configuration is loaded
    from the environment and the banner is printed. *)
Definition at_loop (st : state) : state :=
  let opts := {| GiteaInstance := env st "GITEA_INSTANCE";
                 GitHubToken := env st "GITHUB_TOKEN";
                 GiteaToken := env st "GITEA_TOKEN";
                 GiteaOwner := env st "GITEA_OWNER" |} in
  {| env := env st; options := opts; stdin := stdin st; network := network st;
     trace := trace st ++ map Stdout (banner opts) |}.

(** ** Inputs and answers that go wrong *)

Module Trouble.

(** A line that ends in carriage return and newline. *)
Definition crlf_line : string := "https://github.com/acme/widgets" ++ String "013" nl.

(** The page of a gateway in front of the service. *)
Definition html : string := "<html>502 Bad Gateway</html>".

(** An error object. *)
Definition no_id : string := Reference.ticks "{'message':'internal error'}".

(** [GITEA_INSTANCE] read from a file with carriage returns. *)
Definition config_crlf : programOptions :=
  {| GiteaInstance := "gitea.local" ++ String "013" "";
     GitHubToken := "github-token";
     GiteaToken := "gitea-token";
     GiteaOwner := "acme" |}.

(** An answer whose body cannot be closed. *)
Definition failing_close (code : Z) (body : string) : Response + error :=
  inl {| StatusCode := code;
         Body := {| data := body; read_err := None;
                    close_err := Some (IOError "close failed") |} |}.


End Trouble.

(** * Properties *)

(** ** Strings *)

Lemma append_nil_r (s : string) : s ++ "" = s.
Proof. induction s; simpl; congruence. Qed.

Lemma append_assoc (a b c : string) : (a ++ b) ++ c = a ++ (b ++ c).
Proof. induction a; simpl; congruence. Qed.

Lemma length_append (a b : string) :
  String.length (a ++ b) = String.length a + String.length b.
Proof. induction a; simpl; congruence. Qed.

Lemma substring_prefix (a b : string) : substring 0 (String.length a) (a ++ b) = a.
Proof. induction a; simpl; [destruct b; reflexivity | congruence]. Qed.

Lemma consumed_append (a b : string) : consumed (a ++ b) b = a.
Proof.
  unfold consumed. rewrite length_append.
  replace (String.length a + String.length b - String.length b) with (String.length a) by lia.
  apply substring_prefix.
Qed.

Lemma all_chars_append p (a b : string) :
  all_chars p (a ++ b) = all_chars p a && all_chars p b.
Proof. induction a as [|c a IH]; simpl; [reflexivity | now rewrite IH, andb_assoc]. Qed.

Lemma ends_with_nl_line (s : string) : ends_with_nl (s ++ nl) = true.
Proof.
  induction s as [|a s IH]; [reflexivity|].
  change (String a s ++ nl) with (String a (s ++ nl)).
  cbn [ends_with_nl]. destruct (s ++ nl) eqn:E; [|exact IH].
  destruct s; discriminate.
Qed.

(** Every string is a run of bytes that satisfy [p] followed by a string
    that [stops] it. *)
Lemma span_exists p (s : string) :
  exists run rest, s = run ++ rest /\ all_chars p run = true /\ stops p rest.
Proof.
  induction s as [|a s (run & rest & -> & Hall & Hst)].
  - exists "", "". simpl. auto.
  - destruct (p a) eqn:Ha.
    + exists (String a run), rest. simpl. rewrite Ha, Hall. auto.
    + exists "", (String a (run ++ rest)). simpl. auto.
Qed.

(** [s[:len(s)-1]] drops the last byte of a string that has one. *)
Lemma slice_to_last (body : string) (c : ascii) :
  slice_to (body ++ String c "") (Z.of_nat (String.length (body ++ String c "")) - 1) = Some body.
Proof.
  unfold slice_to. rewrite length_append. cbn [String.length].
  replace (Z.of_nat (String.length body + 1) - 1)%Z with (Z.of_nat (String.length body)) by lia.
  rewrite Nat2Z.id, substring_prefix.
  rewrite (proj2 (Z.leb_le _ _)) by lia.
  rewrite (proj2 (Z.leb_le _ _)) by lia.
  reflexivity.
Qed.

(** A string that is not empty ends in a last byte. *)
Lemma last_byte_exists (s : string) :
  s <> "" -> exists body c, s = body ++ String c "".
Proof.
  induction s as [|a s IH]; [congruence|]. intros _.
  destruct s as [|b s].
  - now exists "", a.
  - destruct IH as (body & c & E); [discriminate|].
    exists (String a body), c. cbn [append]. now rewrite <- E.
Qed.

(** ** The regular expression matcher *)

Lemma plus_loop_stops {R} p s (k : string -> option R) :
  stops p s -> plus_loop p s k = None.
Proof. destruct s; simpl; intros Hs; [reflexivity | now rewrite Hs]. Qed.

(** Greedy: the whole run is taken when what follows is accepted. *)
Lemma plus_loop_greedy {R} p (k : string -> option R) run rest res :
  run <> "" -> all_chars p run = true -> stops p rest -> k rest = Some res ->
  plus_loop p (run ++ rest) k = Some res.
Proof.
  induction run as [|a run IH]; intros Hne Hall Hst Hk; [congruence|].
  simpl in *. apply andb_prop in Hall as [Ha Hall]. rewrite Ha.
  destruct run as [|b run'].
  - simpl. rewrite (plus_loop_stops _ _ _ Hst). exact Hk.
  - rewrite IH; auto. discriminate.
Qed.

(** When what follows refuses every string that starts inside the run, the
    whole run is taken or nothing matches. *)
Lemma plus_loop_refused {R} p (k : string -> option R) run rest :
  (forall a t, p a = true -> k (String a t) = None) ->
  run <> "" -> all_chars p run = true -> stops p rest ->
  plus_loop p (run ++ rest) k = k rest.
Proof.
  intros Hk. induction run as [|a run IH]; intros Hne Hall Hst; [congruence|].
  simpl in *. apply andb_prop in Hall as [Ha Hall]. rewrite Ha.
  destruct run as [|b run'].
  - simpl. now rewrite (plus_loop_stops _ _ _ Hst).
  - rewrite IH; auto; [|discriminate]. destruct (k rest) eqn:E; [reflexivity|].
    simpl in Hall. apply andb_prop in Hall as [Hb _]. simpl. now apply Hk.
Qed.

Lemma plus_loop_Some {R} p (k : string -> option R) s res :
  plus_loop p s k = Some res ->
  exists run rest, s = run ++ rest /\ run <> "" /\ all_chars p run = true /\ k rest = Some res.
Proof.
  revert res. induction s as [|a s IH]; simpl; intros res Hp; [discriminate|].
  destruct (p a) eqn:Ha; [|discriminate].
  destruct (plus_loop p s k) eqn:E.
  - injection Hp as ->. destruct (IH _ eq_refl) as (run & rest & -> & Hne & Hall & Hk).
    exists (String a run), rest. simpl. rewrite Ha, Hall. repeat split; auto. discriminate.
  - exists (String a ""), s. simpl. rewrite Ha. repeat split; auto. discriminate.
Qed.

Lemma run_literal {R} l s cs (k : string -> caps -> option R) :
  run (literal l) (l ++ s) cs k = k s cs.
Proof.
  induction l as [|c l IH]; simpl; [reflexivity|].
  now rewrite Ascii.eqb_refl.
Qed.

Lemma run_literal_Some {R} l s cs (k : string -> caps -> option R) res :
  run (literal l) s cs k = Some res -> exists s', s = l ++ s' /\ k s' cs = Some res.
Proof.
  revert s. induction l as [|c l IH]; simpl; intros s Hr.
  - now exists s.
  - destruct s as [|a s]; [discriminate|].
    destruct (Ascii.eqb a c) eqn:E; [|discriminate].
    apply Ascii.eqb_eq in E as ->.
    destruct (IH _ Hr) as (s' & -> & Hk). now exists s'.
Qed.

(** What stops a path segment is the end of the text or a [/]. *)
Lemma stops_slash s : stops not_slash s <-> s = "" \/ exists t, s = String "/" t.
Proof.
  split.
  - destruct s as [|a t]; simpl; [now left|]. intros Hs. right. exists t.
    unfold not_slash in Hs. simpl in Hs. apply negb_false_iff, Ascii.eqb_eq in Hs. now subst.
  - intros [-> | (t & ->)]; reflexivity.
Qed.

Lemma segment_append r r1 :
  segment r -> all_chars not_slash r1 = true -> segment (r ++ r1).
Proof.
  intros [Hne Hall] H1. split.
  - destruct r; [congruence | discriminate].
  - now rewrite all_chars_append, Hall, H1.
Qed.

(** The pattern at the start of the text, the repo running up to the end of
    its path segment. *)
Lemma match_at_occurrence o r rest :
  segment o -> segment r -> stops not_slash rest ->
  match_at re (host ++ o ++ "/" ++ r ++ rest) = Some (rest, [(2, r); (1, o)]).
Proof.
  intros [Ho1 Ho2] [Hr1 Hr2] Hst.
  unfold match_at, re. cbn [run]. unfold host. rewrite run_literal.
  cbn [run]. fold not_slash.
  rewrite plus_loop_refused; auto.
  - cbn [append]. cbn [accepts]. rewrite Ascii.eqb_refl.
    erewrite plus_loop_greedy; eauto.
    change (String "/" (r ++ rest)) with ("/" ++ r ++ rest).
    now rewrite !consumed_append.
  - intros a t Ha. unfold not_slash in Ha. cbn [accepts] in Ha |- *.
    destruct (Ascii.eqb a "/"); [discriminate | reflexivity].
  - now cbn.
Qed.

(** A match at the start of the text is an occurrence of the pattern there,
    its repo a whole path segment. *)
Lemma match_at_cases s :
  match_at re s = None \/
  exists o r rest, s = host ++ o ++ "/" ++ r ++ rest /\ segment o /\ segment r /\
                   stops not_slash rest /\ match_at re s = Some (rest, [(2, r); (1, o)]).
Proof.
  destruct (match_at re s) as [[rest cs]|] eqn:E; [right | now left].
  rewrite <- E.
  unfold match_at, re in E. cbn [run] in E.
  apply run_literal_Some in E as (s1 & -> & E). cbn [run] in E.
  apply plus_loop_Some in E as (o & s2 & -> & Ho & Hoall & E).
  destruct s2 as [|c s3]; [discriminate|]. cbn [accepts] in E.
  destruct (Ascii.eqb c "/") eqn:Ec; [|discriminate]. apply Ascii.eqb_eq in Ec as ->.
  apply plus_loop_Some in E as (r0 & s4 & -> & Hr & Hrall & E).
  destruct (span_exists not_slash s4) as (r1 & rest' & -> & Hr1 & Hst).
  assert (Hseg : segment (r0 ++ r1)) by (apply segment_append; [split|]; assumption).
  pose proof (match_at_occurrence o (r0 ++ r1) rest' (conj Ho Hoall) Hseg Hst) as Hm.
  exists o, (r0 ++ r1), rest'.
  assert (Heq : host ++ o ++ String "/" ((r0 ++ r1 ++ rest'))
                = host ++ o ++ "/" ++ (r0 ++ r1) ++ rest').
  { cbn [append]. now rewrite append_assoc. }
  fold host. rewrite Heq. split; [reflexivity|]. split; [exact (conj Ho Hoall)|]. auto.
Qed.

(** The pattern at the start of the text always matches there. *)
Lemma match_at_complete o r post :
  segment o -> segment r -> match_at re (host ++ o ++ "/" ++ r ++ post) <> None.
Proof.
  intros Ho Hr. destruct (span_exists not_slash post) as (r1 & rest & -> & Hr1 & Hst).
  rewrite <- (append_assoc r r1 rest).
  rewrite match_at_occurrence; auto; [discriminate|].
  now apply segment_append.
Qed.

Lemma leftmost_here s rest cs :
  match_at re s = Some (rest, cs) -> leftmost re s = Some (consumed s rest, cs).
Proof. intros Hm. destruct s; cbn [leftmost]; now rewrite Hm. Qed.

Lemma leftmost_skip a s :
  match_at re (String a s) = None -> leftmost re (String a s) = leftmost re s.
Proof. intros Hm. cbn [leftmost]. now rewrite Hm. Qed.

Lemma whole_match o r post :
  consumed (host ++ o ++ "/" ++ r ++ post) post = host ++ o ++ "/" ++ r.
Proof.
  replace (host ++ o ++ "/" ++ r ++ post) with ((host ++ o ++ "/" ++ r) ++ post)
    by now rewrite !append_assoc.
  apply consumed_append.
Qed.

(** The first occurrence of the pattern is the one matched. *)
Lemma leftmost_first pre o r post :
  segment o -> segment r -> stops not_slash post ->
  (forall pre' o' r' post',
     occurrence (pre ++ host ++ o ++ "/" ++ r ++ post) pre' o' r' post' ->
     String.length pre <= String.length pre') ->
  leftmost re (pre ++ host ++ o ++ "/" ++ r ++ post)
  = Some (host ++ o ++ "/" ++ r, [(2, r); (1, o)]).
Proof.
  intros Ho Hr Hst. induction pre as [|a pre IH]; intros Hleft.
  - change ("" ++ ?x) with x.
    rewrite (leftmost_here _ _ _ (match_at_occurrence o r post Ho Hr Hst)).
    now rewrite whole_match.
  - change (String a pre ++ ?x) with (String a (pre ++ x)) in *.
    destruct (match_at_cases (String a (pre ++ host ++ o ++ "/" ++ r ++ post)))
      as [N | (o' & r' & rest' & E & Ho' & Hr' & _)].
    + rewrite (leftmost_skip _ _ N). apply IH. intros pre' o' r' post' (E & Ho' & Hr').
      assert (O : occurrence (String a (pre ++ host ++ o ++ "/" ++ r ++ post))
                             (String a pre') o' r' post').
      { split; [|now split].
        change (String a pre' ++ ?x) with (String a (pre' ++ x)). now rewrite <- E. }
      apply Hleft in O. cbn [String.length] in O. lia.
    + specialize (Hleft "" o' r' rest' (conj E (conj Ho' Hr'))).
      cbn [String.length] in Hleft. lia.
Qed.

(** What a match is: the first occurrence of the pattern, its repo a whole
    path segment. *)
Lemma leftmost_Some_inv s w cs :
  leftmost re s = Some (w, cs) ->
  exists pre o r post,
    occurrence s pre o r post /\ stops not_slash post /\
    w = host ++ o ++ "/" ++ r /\ cs = [(2, r); (1, o)] /\
    (forall pre' o' r' post',
       occurrence s pre' o' r' post' -> String.length pre <= String.length pre').
Proof.
  revert w cs. induction s as [|a s IH]; intros w cs.
  - cbn [leftmost]. destruct (match_at_cases "") as [-> | (o & r & rest & E & _)]; discriminate.
  - destruct (match_at_cases (String a s)) as [N | (o & r & rest & E & Ho & Hr & Hst & Hm)].
    + rewrite (leftmost_skip _ _ N). intros Hl.
      destruct (IH _ _ Hl) as (pre & o & r & post & (E & Ho & Hr) & Hst & -> & -> & Hmin).
      exists (String a pre), o, r, post.
      split; [|split; [|split; [|split]]]; auto.
      * split; [|now split].
        change (String a pre ++ ?x) with (String a (pre ++ x)). now rewrite <- E.
      * intros pre' o' r' post' (E' & Ho' & Hr').
        destruct pre' as [|b pre'].
        -- exfalso. change ("" ++ ?x) with x in E'. rewrite E' in N.
           now apply (match_at_complete o' r' post').
        -- change (String b pre' ++ ?x) with (String b (pre' ++ x)) in E'.
           injection E' as _ E'. cbn [String.length].
           apply le_n_S, (Hmin pre' o' r' post'). split; [assumption | now split].
    + rewrite (leftmost_here _ _ _ Hm). intros Hl. injection Hl as <- <-.
      exists "", o, r, rest.
      split; [|split; [|split; [|split]]]; auto.
      * split; [assumption | now split].
      * rewrite E. apply whole_match.
      * intros. cbn [String.length]. lia.
Qed.

(** No match: the text holds no occurrence of the pattern. *)
Lemma leftmost_None s :
  leftmost re s = None -> forall pre o r post, ~ occurrence s pre o r post.
Proof.
  induction s as [|a s IH]; intros Hl pre o r post (E & Ho & Hr).
  - destruct pre; discriminate.
  - cbn [leftmost] in Hl.
    destruct (match_at re (String a s)) as [[rest cs]|] eqn:Hm; [discriminate|].
    destruct pre as [|b pre].
    + change ("" ++ ?x) with x in E. rewrite E in Hm.
      now apply (match_at_complete o r post).
    + change (String b pre ++ ?x) with (String b (pre ++ x)) in E.
      injection E as _ E. apply (IH Hl pre o r post). split; [assumption | now split].
Qed.

(** Where the pattern occurs, there is a match. *)
Lemma leftmost_complete s pre o r post :
  occurrence s pre o r post -> leftmost re s <> None.
Proof. intros O N. exact (leftmost_None s N pre o r post O). Qed.

(** [FindStringSubmatch] returns [nil] or the match and its two groups: the
    test [len(match) != 3] of the program is the test for [nil]. *)
Lemma FindStringSubmatch_shape s :
  FindStringSubmatch re s = [] \/
  exists whole o r, FindStringSubmatch re s = [whole; o; r].
Proof.
  unfold FindStringSubmatch. destruct (leftmost re s) as [[w cs]|]; [right | now left].
  exists w, (group 1 cs), (group 2 cs). reflexivity.
Qed.

(** No match starts at any of the first [n] positions of [s]. *)
Lemma unmatched_before (n : nat) : forall s,
  (forall i, i < n -> match_at re (substring i (String.length s - i) s) = None) ->
  forall pre o r post, occurrence s pre o r post -> n <= String.length pre.
Proof.
  intros s Hn pre o r post (E & Ho & Hr).
  destruct (Nat.le_gt_cases n (String.length pre)) as [|Hlt]; [assumption|].
  exfalso. specialize (Hn _ Hlt). subst s.
  assert (D : forall p t, substring (String.length p) (String.length (p ++ t) - String.length p) (p ++ t) = t).
  { clear. induction p as [|a p IH]; intros t.
    - cbn [append String.length]. rewrite Nat.sub_0_r.
      induction t as [|b t IHt]; [reflexivity|]. cbn [String.length substring]. now rewrite IHt.
    - cbn [append String.length substring Nat.sub]. apply IH. }
  rewrite D in Hn. now apply (match_at_complete o r post).
Qed.

(** ** The URL parser *)

(** X3: the parser finds no match exactly in the texts that do not hold the
    pattern [github.com/<owner>/<repo>]. *)
Lemma no_match_iff (s : string) :
  FindStringSubmatch re s = [] <-> forall pre o r post, ~ occurrence s pre o r post.
Proof.
  unfold FindStringSubmatch. split.
  - destruct (leftmost re s) as [[w cs]|] eqn:E; [discriminate|].
    intros _. now apply leftmost_None.
  - intros Hno. destruct (leftmost re s) as [[w cs]|] eqn:E; [|reflexivity].
    apply leftmost_Some_inv in E as (pre & o & r & post & O & _).
    now destruct (Hno pre o r post).
Qed.

(** C3, what the code does. First text: [github.com/acme/widgets] is matched
    by the pattern with owner [acme] and repo [widgets], and the parser
    extracts another repo, because the text that follows the repo without a
    [/] belongs to the match. Second text: the pattern occurs twice, and
    the owner and the repo of the second occurrence, which ends the line,
    are not what the parser extracts. *)
Lemma trailing_text_joins_repo :
  (occurrence "see github.com/acme/widgets for details" "see " "acme" "widgets" " for details"
   /\ FindStringSubmatch re "see github.com/acme/widgets for details"
      = ["github.com/acme/widgets for details"; "acme"; "widgets for details"])
  /\ (occurrence "github.com/x/y github.com/acme/widgets" "github.com/x/y " "acme" "widgets" ""
      /\ FindStringSubmatch re "github.com/x/y github.com/acme/widgets"
         = ["github.com/x/y github.com"; "x"; "y github.com"]).
Proof.
  split; (split; [|reflexivity]);
    (split; [reflexivity|]); split; split; (discriminate || reflexivity).
Qed.

(** C3, as amended: when the text holds the pattern [github.com/<owner>/<repo>],
    the parser extracts the owner and the repo of its first occurrence,
    the repo taken up to the end of its path segment (the end of the
    text or the next [/]), whatever precedes the occurrence (scheme, other
    text) and whatever path segments follow it. So an occurrence is
    extracted as it stands when it is the first one and its repo is a
    whole path segment. *)
Theorem first_occurrence_extracted (s pre o r post : string) :
  occurrence s pre o r post ->
  (exists pre1 o1 r1 post1,
      occurrence s pre1 o1 r1 post1
      /\ (post1 = "" \/ exists t, post1 = String "/" t)
      /\ (forall pre' o' r' post',
            occurrence s pre' o' r' post' -> String.length pre1 <= String.length pre')
      /\ FindStringSubmatch re s = [host ++ o1 ++ "/" ++ r1; o1; r1])
  /\ ((post = "" \/ exists t, post = String "/" t) ->
      (forall pre' o' r' post',
         occurrence s pre' o' r' post' -> String.length pre <= String.length pre') ->
      FindStringSubmatch re s = [host ++ o ++ "/" ++ r; o; r]).
Proof.
  intros O. split.
  - pose proof (leftmost_complete s pre o r post O) as Hsome.
    unfold FindStringSubmatch.
    destruct (leftmost re s) as [[w cs]|] eqn:E; [|congruence].
    apply leftmost_Some_inv in E as (pre1 & o1 & r1 & post1 & O1 & Hst & -> & -> & Hmin).
    exists pre1, o1, r1, post1. apply stops_slash in Hst. repeat split; auto; apply O1.
  - destruct O as (-> & Ho & Hr). intros Hpost Hfirst. apply stops_slash in Hpost.
    unfold FindStringSubmatch.
    rewrite (leftmost_first pre o r post Ho Hr Hpost).
    + reflexivity.
    + intros pre' o' r' post' O. now apply (Hfirst pre' o' r' post').
Qed.

Lemma first_occurrence_extracted_witness :
  FindStringSubmatch re "see https://github.com/acme/widgets/tree/main"
  = [host ++ "acme" ++ "/" ++ "widgets"; "acme"; "widgets"].
Proof.
  assert (O : occurrence "see https://github.com/acme/widgets/tree/main"
                         "see https://" "acme" "widgets" "/tree/main").
  { split; [reflexivity|]. split; split; (discriminate || reflexivity). }
  apply (proj2 (first_occurrence_extracted
                  "see https://github.com/acme/widgets/tree/main"
                  "see https://" "acme" "widgets" "/tree/main" O)).
  - right. now exists "tree/main".
  - apply (unmatched_before 12). intros i Hi.
    do 12 (destruct i as [|i]; [reflexivity|]). lia.
Defined.

(** ** One iteration of the loop *)

Lemma read_line_parts (st : state) :
  read_line "" (stdin st)
  = (input_line st, snd (fst (read_line "" (stdin st))), input_rest st).
Proof. unfold input_line, input_rest. now destruct (read_line "" (stdin st)) as [[? ?] ?]. Qed.

Lemma printf_line (a b : string) : ends_with_nl (a ++ b ++ nl) = true.
Proof. rewrite <- append_assoc. apply ends_with_nl_line. Qed.

(** Enter [migrateRepo]: the prompt is printed and the line is read. *)
Ltac enter :=
  unfold migrateRepo, bind, Print, ReadString, emit;
  cbn [stdin fst snd env options network trace];
  rewrite read_line_parts; cbn [fst snd].

(** Run the effects that stand at the head of the goal. *)
Ltac step :=
  unfold bind, Println, Printf, LogError, emit, load, Do, defer, Close, ret, panic;
  cbn [stdin fst snd env options network trace tl].

(** Both sides are final states: compare their traces as lists. *)
Ltac finish := step; rewrite <- ?app_assoc; cbn [app]; reflexivity.

(** An iteration whose line holds a GitHub URL: the whole of its effects,
    whatever the network answers. *)
Lemma migrateRepo_fetch `{Library} (st : state) (url : string) (c : ascii)
  (whole username repoName : string) :
  input_line st = url ++ String c "" ->
  FindStringSubmatch re url = [whole; username; repoName] ->
  url_ok (URL (github_request (options st) username repoName)) = true ->
  migrateRepo st =
    (Done tt,
     {| env := env st; options := options st; stdin := input_rest st;
        network := if posts (options st) (next_answer (network st))
                   then tl (tl (network st)) else tl (network st);
        trace := trace st ++
                   [Stdout prompt; Log ("Getting GitHub repo info..." ++ nl);
                    Sent (github_request (options st) username repoName)] ++
                   after_github (options st) (next_answer (network st))
                                (next_answer (tl (network st))) |}).
Proof.
  intros Hl Hm Hu. enter. rewrite Hl, slice_to_last, Hm. cbn [List.length Nat.eqb negb nth].
  unfold NewRequest. cbn [github_request URL] in Hu. rewrite Hu.
  unfold after_github, posts, after_gitea, gitea_outcome, failure, decoded, closing,
    status_of, classify, report, got_repo, ReadAll, Marshal.
  step.
  destruct (network st) as [|[gh|e] more]; cbn [next_answer tl]; [finish | | finish].
  destruct gh as [code [body rerr cerr]]. cbn [Body data read_err close_err StatusCode].
  destruct rerr as [e|]; [destruct cerr; finish|].
  destruct (Unmarshal GitHubRepo.fields body GitHubRepo.zero) as [repo [e|]]; cbn [fst snd];
    [destruct cerr; finish|].
  step. fold (gitea_url (options st)).
  destruct (url_ok (gitea_url (options st))); [|destruct cerr; finish].
  step.
  destruct more as [|[gt|e] more]; cbn [next_answer tl];
    [destruct cerr; finish | | destruct cerr; finish].
  destruct gt as [code2 [body2 rerr2 cerr2]]. cbn [Body data read_err close_err StatusCode].
  destruct rerr2 as [e|]; [destruct cerr, cerr2; finish|].
  destruct (Unmarshal GiteaRepo.fields body2 GiteaRepo.zero) as [giteaRepo [e|]]; cbn [fst snd];
    [destruct cerr, cerr2; finish|].
  destruct (code2 =? 403)%Z; [destruct cerr, cerr2; finish|].
  destruct (code2 =? 409)%Z; [destruct cerr, cerr2; finish|].
  destruct (code2 =? 422)%Z; [destruct cerr, cerr2; finish|].
  destruct (GiteaRepo.Id giteaRepo =? 0)%Z; [destruct cerr, cerr2; finish|].
  unfold Printf. rewrite printf_line.
  destruct cerr, cerr2; finish.
Qed.

(** An iteration whose line holds no GitHub URL. *)
Lemma migrateRepo_invalid `{Library} (st : state) (url : string) (c : ascii) :
  input_line st = url ++ String c "" ->
  FindStringSubmatch re url = [] ->
  migrateRepo st =
    (Done tt,
     {| env := env st; options := options st; stdin := input_rest st;
        network := network st;
        trace := trace st ++ [Stdout prompt; Log ("Invalid GitHub URL" ++ nl)] |}).
Proof.
  intros Hl Hm. enter. rewrite Hl, slice_to_last, Hm. cbn [List.length Nat.eqb negb].
  finish.
Qed.

(** An iteration that gets an answer from GitHub that decodes, and whose
    request to Gitea can be built. *)
Lemma migrateRepo_posted `{Library} (st : state) (url : string) (c : ascii)
  (whole username repoName : string) (github gitea : Response + error)
  (more : list (Response + error)) :
  input_line st = url ++ String c "" ->
  FindStringSubmatch re url = [whole; username; repoName] ->
  url_ok (URL (github_request (options st) username repoName)) = true ->
  network st = github :: gitea :: more ->
  failure GitHubRepo.fields GitHubRepo.zero github = None ->
  url_ok (gitea_url (options st)) = true ->
  migrateRepo st =
    (Done tt,
     {| env := env st; options := options st; stdin := input_rest st; network := more;
        trace := trace st ++
          [ Stdout prompt;
            Log ("Getting GitHub repo info..." ++ nl);
            Sent (github_request (options st) username repoName);
            got_repo (GitHubRepo.Name (decoded GitHubRepo.fields GitHubRepo.zero github));
            Log ("Creating Gitea repository..." ++ nl);
            Sent (gitea_request (options st)
                    (json_text (MigrateRepoOptions.to_json
                       (migrateOptions (options st)
                          (decoded GitHubRepo.fields GitHubRepo.zero github))))) ] ++
          after_gitea gitea ++ closing github |}).
Proof.
  intros Hl Hm Hu Hn Hf Hg.
  rewrite (migrateRepo_fetch st url c whole username repoName Hl Hm Hu).
  unfold posts, after_github. rewrite Hn. cbn [next_answer tl]. rewrite Hf, Hg.
  cbn [app]. reflexivity.
Qed.

(** ** The claims about one iteration *)

(** C6: when the parser finds no match in the line, the program reports
    "Invalid GitHub URL" and returns: nothing is sent, and no answer of the
    network is used up. *)
Theorem no_match_no_request `{Library} (st : state) (url : string) (c : ascii) :
  input_line st = url ++ String c "" ->
  FindStringSubmatch re url = [] ->
  migrateRepo st =
    (Done tt,
     {| env := env st; options := options st; stdin := input_rest st;
        network := network st;
        trace := trace st ++ [Stdout prompt; Log ("Invalid GitHub URL" ++ nl)] |}).
Proof. exact (migrateRepo_invalid st url c). Qed.

Lemma no_match_no_request_witness :
  @migrateRepo Reference.library
    (Scenario.start ["gitlab.com/acme/widgets" ++ nl] [Scenario.answer 200 Scenario.widgets])
  = (Done tt,
     {| env := fun _ => ""; options := Scenario.config; stdin := [];
        network := [Scenario.answer 200 Scenario.widgets];
        trace := [Stdout prompt; Log ("Invalid GitHub URL" ++ nl)] |}).
Proof.
  exact (@no_match_no_request Reference.library
           (Scenario.start ["gitlab.com/acme/widgets" ++ nl] [Scenario.answer 200 Scenario.widgets])
           "gitlab.com/acme/widgets" "010" eq_refl eq_refl).
Defined.

(** C10: of a line that is not empty, [body] followed by a last byte [c],
    the parser receives [body]: the last byte is dropped whether or not it
    is a newline. The iteration goes on as the match in [body] decides.
    (Every string that is not empty has this form: [last_byte_exists].) *)
Theorem last_byte_dropped `{Library} (st : state) (body : string) (c : ascii) :
  input_line st = body ++ String c "" ->
  slice_to (input_line st) (Z.of_nat (String.length (input_line st)) - 1) = Some body
  /\ (FindStringSubmatch re body = [] ->
      trace (snd (migrateRepo st))
      = (trace st ++ [Stdout prompt; Log ("Invalid GitHub URL" ++ nl)])%list)
  /\ (forall whole owner repo,
        FindStringSubmatch re body = [whole; owner; repo] ->
        url_ok (URL (github_request (options st) owner repo)) = true ->
        In (Sent (github_request (options st) owner repo)) (trace (snd (migrateRepo st)))).
Proof.
  intros Hl. split; [|split].
  - rewrite Hl. apply slice_to_last.
  - intros Hm. now rewrite (migrateRepo_invalid st body c Hl Hm).
  - intros whole owner repo Hm Hu.
    rewrite (migrateRepo_fetch st body c whole owner repo Hl Hm Hu).
    cbn [snd trace]. apply in_or_app. right. cbn. auto.
Qed.

(** The input ends in [.../widgets] with no newline: the repository asked
    for is [widget]. *)
Lemma last_byte_dropped_witness :
  In (Sent (github_request Scenario.config "acme" "widget"))
     (trace (snd (@migrateRepo Reference.library
                    (Scenario.start ["https://github.com/acme/widgets"] [])))).
Proof.
  exact (proj2 (proj2 (@last_byte_dropped Reference.library
                         (Scenario.start ["https://github.com/acme/widgets"] [])
                         "https://github.com/acme/widget" "s" eq_refl))
               "github.com/acme/widget" "acme" "widget" eq_refl eq_refl).
Defined.

(** C8, what the code does: at the end of the input [ReadString] returns
    the empty string, the slice [url[:len(url)-1]] is out of range, and the
    call panics after the prompt: nothing is reported and the loop does not
    go on. An empty line, which is read as a newline, is reported as an
    invalid URL. *)
Theorem closed_input_panics `{Library} (st : state) :
  migrateRepo (with_stdin st [])
  = (Panicked "runtime error: slice bounds out of range [:-1]",
     {| env := env st; options := options st; stdin := [];
        network := network st; trace := trace st ++ [Stdout prompt] |})
  /\ (forall n, fst (rounds (S n) (with_stdin st []))
                = Panicked "runtime error: slice bounds out of range [:-1]")
  /\ (forall more,
        migrateRepo (with_stdin st (nl :: more))
        = (Done tt,
           {| env := env st; options := options st; stdin := more;
              network := network st;
              trace := trace st ++ [Stdout prompt; Log ("Invalid GitHub URL" ++ nl)] |})).
Proof.
  assert (P : migrateRepo (with_stdin st [])
              = (Panicked "runtime error: slice bounds out of range [:-1]",
                 {| env := env st; options := options st; stdin := [];
                    network := network st; trace := trace st ++ [Stdout prompt] |})).
  { enter. unfold input_line, input_rest, with_stdin.
    cbn [stdin read_line fst snd String.length env options network trace]. reflexivity. }
  split; [exact P|]. split.
  - intros n. cbn [rounds]. unfold bind. now rewrite P.
  - intros more.
    rewrite (migrateRepo_invalid (with_stdin st (nl :: more)) "" "010"); reflexivity.
Qed.

(** C1: once the request to Gitea is out, the iteration ends with the report
    of the outcome, classified in the order of [classify]: a failure of
    the transport, of the read of the body or of its decoding first,
    whatever the status code; then status 403, 409, 422; then an
    identifier of zero; otherwise success with the web URL. *)
Theorem gitea_outcome_in_order `{Library} (st : state) (url : string) (c : ascii)
  (whole username repoName : string) (github gitea : Response + error)
  (more : list (Response + error)) :
  input_line st = url ++ String c "" ->
  FindStringSubmatch re url = [whole; username; repoName] ->
  url_ok (URL (github_request (options st) username repoName)) = true ->
  network st = github :: gitea :: more ->
  failure GitHubRepo.fields GitHubRepo.zero github = None ->
  url_ok (gitea_url (options st)) = true ->
  let repo := decoded GitHubRepo.fields GitHubRepo.zero github in
  let created := decoded GiteaRepo.fields GiteaRepo.zero gitea in
  migrateRepo st =
    (Done tt,
     {| env := env st; options := options st; stdin := input_rest st; network := more;
        trace := trace st ++
          [ Stdout prompt;
            Log ("Getting GitHub repo info..." ++ nl);
            Sent (github_request (options st) username repoName);
            got_repo (GitHubRepo.Name repo);
            Log ("Creating Gitea repository..." ++ nl);
            Sent (gitea_request (options st)
                    (json_text (MigrateRepoOptions.to_json (migrateOptions (options st) repo))));
            report (classify (failure GiteaRepo.fields GiteaRepo.zero gitea)
                             (status_of gitea)
                             (GiteaRepo.Id created) (GiteaRepo.HtmlUrl created)) ] ++
          closing gitea ++ closing github |}).
Proof.
  intros Hl Hm Hu Hn Hf Hg repo created.
  rewrite (migrateRepo_posted st url c whole username repoName github gitea more Hl Hm Hu Hn Hf Hg).
  unfold after_gitea, gitea_outcome. fold repo. fold created.
  reflexivity.
Qed.

(** The scenario of the specification: status 201, identifier 42. *)
Lemma gitea_outcome_in_order_witness :
  trace (snd (@migrateRepo Reference.library
                (Scenario.start ["https://github.com/acme/widgets" ++ nl]
                   [Scenario.answer 200 Scenario.widgets; Scenario.answer 201 Scenario.created])))
  = [ Stdout prompt;
      Log ("Getting GitHub repo info..." ++ nl);
      Sent (github_request Scenario.config "acme" "widgets");
      Log ("Got repo: widgets" ++ nl);
      Log ("Creating Gitea repository..." ++ nl);
      Sent (gitea_request Scenario.config
              (Reference.write
                 (MigrateRepoOptions.to_json (migrateOptions Scenario.config Scenario.public_repo))));
      Log ("Repository created: https://gitea.local/acme/widgets" ++ nl) ].
Proof.
  rewrite (@gitea_outcome_in_order Reference.library
             (Scenario.start ["https://github.com/acme/widgets" ++ nl]
                [Scenario.answer 200 Scenario.widgets; Scenario.answer 201 Scenario.created])
             "https://github.com/acme/widgets" "010"
             "github.com/acme/widgets" "acme" "widgets"
             (Scenario.answer 200 Scenario.widgets) (Scenario.answer 201 Scenario.created) []
             eq_refl eq_refl eq_refl eq_refl eq_refl eq_refl).
  reflexivity.
Defined.

(** C5: a Gitea answer that decodes, with a status other than 403, 409 and
    422 and an identifier of zero, is reported as "Repository creation
    failed", whatever the status code. *)
Theorem zero_identifier_is_failure `{Library} (st : state) (url : string) (c : ascii)
  (whole username repoName : string) (github : Response + error) (resp : Response)
  (more : list (Response + error)) :
  input_line st = url ++ String c "" ->
  FindStringSubmatch re url = [whole; username; repoName] ->
  url_ok (URL (github_request (options st) username repoName)) = true ->
  network st = github :: inl resp :: more ->
  failure GitHubRepo.fields GitHubRepo.zero github = None ->
  url_ok (gitea_url (options st)) = true ->
  failure GiteaRepo.fields GiteaRepo.zero (inl resp) = None ->
  GiteaRepo.Id (decoded GiteaRepo.fields GiteaRepo.zero (inl resp)) = 0%Z ->
  StatusCode resp <> 403%Z -> StatusCode resp <> 409%Z -> StatusCode resp <> 422%Z ->
  let repo := decoded GitHubRepo.fields GitHubRepo.zero github in
  migrateRepo st =
    (Done tt,
     {| env := env st; options := options st; stdin := input_rest st; network := more;
        trace := trace st ++
          [ Stdout prompt;
            Log ("Getting GitHub repo info..." ++ nl);
            Sent (github_request (options st) username repoName);
            got_repo (GitHubRepo.Name repo);
            Log ("Creating Gitea repository..." ++ nl);
            Sent (gitea_request (options st)
                    (json_text (MigrateRepoOptions.to_json (migrateOptions (options st) repo))));
            Log ("Repository creation failed" ++ nl) ] ++
          closing (inl resp) ++ closing github |}).
Proof.
  intros Hl Hm Hu Hn Hf Hg Hd Hid H403 H409 H422 repo.
  rewrite (migrateRepo_posted st url c whole username repoName github (inl resp) more
             Hl Hm Hu Hn Hf Hg).
  unfold after_gitea, gitea_outcome, classify. rewrite Hd, Hid. cbn [status_of].
  apply Z.eqb_neq in H403, H409, H422. rewrite H403, H409, H422. cbn [Z.eqb report].
  fold repo. reflexivity.
Qed.

(** Status 200 with identifier 0. *)
Lemma zero_identifier_is_failure_witness :
  trace (snd (@migrateRepo Reference.library
                (Scenario.start ["https://github.com/acme/widgets" ++ nl]
                   [Scenario.answer 200 Scenario.widgets;
                    Scenario.answer 200 Scenario.not_created])))
  = [ Stdout prompt;
      Log ("Getting GitHub repo info..." ++ nl);
      Sent (github_request Scenario.config "acme" "widgets");
      Log ("Got repo: widgets" ++ nl);
      Log ("Creating Gitea repository..." ++ nl);
      Sent (gitea_request Scenario.config
              (Reference.write
                 (MigrateRepoOptions.to_json (migrateOptions Scenario.config Scenario.public_repo))));
      Log ("Repository creation failed" ++ nl) ].
Proof.
  rewrite (@zero_identifier_is_failure Reference.library
             (Scenario.start ["https://github.com/acme/widgets" ++ nl]
                [Scenario.answer 200 Scenario.widgets; Scenario.answer 200 Scenario.not_created])
             "https://github.com/acme/widgets" "010"
             "github.com/acme/widgets" "acme" "widgets"
             (Scenario.answer 200 Scenario.widgets)
             {| StatusCode := 200;
                Body := {| data := Scenario.not_created; read_err := None; close_err := None |} |}
             []
             eq_refl eq_refl eq_refl eq_refl eq_refl eq_refl eq_refl eq_refl
             ltac:(discriminate) ltac:(discriminate) ltac:(discriminate)).
  reflexivity.
Defined.

(** C2, what the code does when [GITHUB_TOKEN] is not set: the repository is
    public, and the auth token of the request is the configured token all
    the same, both being the empty string. *)
Lemma empty_token_equals_configured :
  GitHubRepo.Private Scenario.public_repo = false
  /\ GitHubToken Scenario.config_without_token = ""
  /\ MigrateRepoOptions.AuthToken (migrateOptions Scenario.config_without_token Scenario.public_repo)
     = GitHubToken Scenario.config_without_token.
Proof. repeat split. Qed.

(** C2, as amended: the migration request sent to Gitea carries the struct
    [m] whose auth token is the configured GitHub token when the descriptor
    is private and the empty string when it is public; so, when the
    configured token is not empty, it is the configured token if and only
    if the descriptor is private. *)
Theorem auth_token_follows_private `{Library} (st : state) (url : string) (c : ascii)
  (whole username repoName : string) (github gitea : Response + error)
  (more : list (Response + error)) :
  input_line st = url ++ String c "" ->
  FindStringSubmatch re url = [whole; username; repoName] ->
  url_ok (URL (github_request (options st) username repoName)) = true ->
  network st = github :: gitea :: more ->
  failure GitHubRepo.fields GitHubRepo.zero github = None ->
  url_ok (gitea_url (options st)) = true ->
  let repo := decoded GitHubRepo.fields GitHubRepo.zero github in
  let m := migrateOptions (options st) repo in
  In (Sent (gitea_request (options st) (json_text (MigrateRepoOptions.to_json m))))
     (trace (snd (migrateRepo st)))
  /\ (GitHubRepo.Private repo = true ->
      MigrateRepoOptions.AuthToken m = GitHubToken (options st))
  /\ (GitHubRepo.Private repo = false -> MigrateRepoOptions.AuthToken m = "")
  /\ (GitHubToken (options st) <> "" ->
      (MigrateRepoOptions.AuthToken m = GitHubToken (options st)
       <-> GitHubRepo.Private repo = true)).
Proof.
  intros Hl Hm Hu Hn Hf Hg repo m. split; [|split; [|split]].
  - rewrite (migrateRepo_posted st url c whole username repoName github gitea more
               Hl Hm Hu Hn Hf Hg).
    cbn [snd trace]. apply in_or_app. right. fold repo. fold m. cbn. auto 10.
  - intros Hp. unfold m, migrateOptions. cbn. now rewrite Hp.
  - intros Hp. unfold m, migrateOptions. cbn. now rewrite Hp.
  - intros Hne. unfold m, migrateOptions. cbn.
    destruct (GitHubRepo.Private repo); split; intros E; congruence.
Qed.

(** A private repository: the request carries the configured token. *)
Lemma auth_token_follows_private_witness :
  In (Sent (gitea_request Scenario.config
              (Reference.write
                 (MigrateRepoOptions.to_json
                    (MigrateRepoOptions.mk "github-token" "https://github.com/acme/secret.git" ""
                       true true "secret" "acme" "github" true)))))
     (trace (snd (@migrateRepo Reference.library
                    (Scenario.start ["github.com/acme/secret" ++ nl]
                       [Scenario.answer 200 Scenario.secret;
                        Scenario.answer 201 Scenario.created])))).
Proof.
  exact (proj1 (@auth_token_follows_private Reference.library
                  (Scenario.start ["github.com/acme/secret" ++ nl]
                     [Scenario.answer 200 Scenario.secret; Scenario.answer 201 Scenario.created])
                  "github.com/acme/secret" "010" "github.com/acme/secret" "acme" "secret"
                  (Scenario.answer 200 Scenario.secret) (Scenario.answer 201 Scenario.created) []
                  eq_refl eq_refl eq_refl eq_refl eq_refl eq_refl)).
Defined.

(** C7: the request sent to Gitea is the JSON object with exactly the nine
    members below, in this order: mirror and wiki are true, the service is
    "github", the owner is the configured Gitea owner, the clone address
    is the descriptor's clone URL, and description, name and private flag
    are the descriptor's. It is the encoding of the struct
    [migrateOptions], whose fields hold the same values. *)
Theorem migration_request_fields `{Library} (st : state) (url : string) (c : ascii)
  (whole username repoName : string) (github gitea : Response + error)
  (more : list (Response + error)) :
  input_line st = url ++ String c "" ->
  FindStringSubmatch re url = [whole; username; repoName] ->
  url_ok (URL (github_request (options st) username repoName)) = true ->
  network st = github :: gitea :: more ->
  failure GitHubRepo.fields GitHubRepo.zero github = None ->
  url_ok (gitea_url (options st)) = true ->
  let repo := decoded GitHubRepo.fields GitHubRepo.zero github in
  let m := migrateOptions (options st) repo in
  In (Sent (gitea_request (options st)
              (json_text
                 (JObj [ ("auth_token", JStr (MigrateRepoOptions.AuthToken m));
                         ("clone_addr", JStr (GitHubRepo.CloneURL repo));
                         ("description", JStr (GitHubRepo.Description repo));
                         ("mirror", JBool true);
                         ("private", JBool (GitHubRepo.Private repo));
                         ("repo_name", JStr (GitHubRepo.Name repo));
                         ("repo_owner", JStr (GiteaOwner (options st)));
                         ("service", JStr "github");
                         ("wiki", JBool true) ]))))
     (trace (snd (migrateRepo st)))
  /\ MigrateRepoOptions.Mirror m = true
  /\ MigrateRepoOptions.Wiki m = true
  /\ MigrateRepoOptions.Service m = "github"
  /\ MigrateRepoOptions.RepoOwner m = GiteaOwner (options st)
  /\ MigrateRepoOptions.CloneAddr m = GitHubRepo.CloneURL repo
  /\ MigrateRepoOptions.Description m = GitHubRepo.Description repo
  /\ MigrateRepoOptions.RepoName m = GitHubRepo.Name repo
  /\ MigrateRepoOptions.Private m = GitHubRepo.Private repo.
Proof.
  intros Hl Hm Hu Hn Hf Hg repo m. split; [|repeat split].
  rewrite (migrateRepo_posted st url c whole username repoName github gitea more
             Hl Hm Hu Hn Hf Hg).
  cbn [snd trace]. apply in_or_app. right. fold repo. cbn. auto 10.
Qed.

(** The scenario of the specification. *)
Lemma migration_request_fields_witness :
  In (Sent (gitea_request Scenario.config
              (Reference.write
                 (JObj [ ("auth_token", JStr "");
                         ("clone_addr", JStr "https://github.com/acme/widgets.git");
                         ("description", JStr "A widget");
                         ("mirror", JBool true);
                         ("private", JBool false);
                         ("repo_name", JStr "widgets");
                         ("repo_owner", JStr "acme");
                         ("service", JStr "github");
                         ("wiki", JBool true) ]))))
     (trace (snd (@migrateRepo Reference.library
                    (Scenario.start ["https://github.com/acme/widgets" ++ nl]
                       [Scenario.answer 200 Scenario.widgets;
                        Scenario.answer 201 Scenario.created])))).
Proof.
  exact (proj1 (@migration_request_fields Reference.library
                  (Scenario.start ["https://github.com/acme/widgets" ++ nl]
                     [Scenario.answer 200 Scenario.widgets; Scenario.answer 201 Scenario.created])
                  "https://github.com/acme/widgets" "010"
                  "github.com/acme/widgets" "acme" "widgets"
                  (Scenario.answer 200 Scenario.widgets) (Scenario.answer 201 Scenario.created) []
                  eq_refl eq_refl eq_refl eq_refl eq_refl eq_refl)).
Defined.

(** ** Decoding a response body *)

Lemma lookup_field_In {T} (fields : list (field T)) key f :
  lookup_field fields key = Some f -> In f fields.
Proof.
  unfold lookup_field.
  destruct (find _ fields) eqn:E1.
  - intros [= <-]. now apply find_some in E1.
  - intros E2. now apply find_some in E2.
Qed.

(** An error once saved is the error returned. *)
Lemma object_saved {T} (fields : list (field T)) members : forall v e,
  snd (object fields members v (Some e)) = Some e.
Proof.
  induction members as [|[key j] members IH]; intros v e; cbn [object]; [reflexivity|].
  destruct (lookup_field fields key) as [f|]; [|apply IH].
  destruct (literalStore (fkind f) j); apply IH.
Qed.

(** An object decodes without error exactly when it is well typed. *)
Lemma object_ok_iff {T} (fields : list (field T)) members : forall v,
  snd (object fields members v None) = None <-> well_typed fields members = true.
Proof.
  induction members as [|[key j] members IH]; intros v; cbn [object well_typed forallb fst snd].
  - tauto.
  - fold (well_typed fields members).
    destruct (lookup_field fields key) as [f|]; [|apply IH].
    destruct (literalStore (fkind f) j); cbn [andb saveError]; try apply IH.
    rewrite object_saved. split; discriminate.
Qed.

(** A field that no member names keeps its value: [g] reads a field named
    [n], which the setters of the other fields leave alone. *)
Lemma object_absent {T A} (fields : list (field T)) (g : T -> A) (n : string) :
  (forall f, In f fields -> fname f <> n -> forall a v, g (fset f a v) = g v) ->
  forall members v saved,
    names_field fields n members = false ->
    g (fst (object fields members v saved)) = g v.
Proof.
  intros Hframe. induction members as [|[key j] members IH]; intros v saved Hn;
    cbn [object]; [reflexivity|].
  cbn [names_field existsb fst] in Hn. fold (names_field fields n members) in Hn.
  apply orb_false_elim in Hn as [Hk Hn].
  destruct (lookup_field fields key) as [f|] eqn:El; [|now apply IH].
  apply String.eqb_neq in Hk. apply lookup_field_In in El.
  destruct (literalStore (fkind f) j); rewrite IH by assumption; auto.
Qed.

(** The bodies that decode into a struct without error: [null], and the
    well typed objects. *)
Lemma Unmarshal_ok_iff `{Library} {T} (fields : list (field T)) (body : string) (zero : T) :
  snd (Unmarshal fields body zero) = None <->
  (json_syntax body = Some JNull \/
   exists members, json_syntax body = Some (JObj members) /\ well_typed fields members = true).
Proof.
  unfold Unmarshal. destruct (json_syntax body) as [[| | | | |members]|]; cbn [value_into snd].
  - split; auto.
  - split; [discriminate | intros [E | (m & E & _)]; discriminate].
  - split; [discriminate | intros [E | (m & E & _)]; discriminate].
  - split; [discriminate | intros [E | (m & E & _)]; discriminate].
  - split; [discriminate | intros [E | (m & E & _)]; discriminate].
  - rewrite object_ok_iff. split.
    + intros W. right. now exists members.
    + intros [E | (m & [= <-] & W)]; [discriminate | assumption].
  - split; [discriminate | intros [E | (m & E & _)]; discriminate].
Qed.

(** The descriptor fields that the body does not name are zero. *)
Lemma GitHubRepo_absent `{Library} (body : string) (members : list (string * json)) :
  json_syntax body = Some (JObj members) ->
  let repo := fst (Unmarshal GitHubRepo.fields body GitHubRepo.zero) in
  (names_field GitHubRepo.fields "clone_url" members = false -> GitHubRepo.CloneURL repo = "")
  /\ (names_field GitHubRepo.fields "description" members = false ->
      GitHubRepo.Description repo = "")
  /\ (names_field GitHubRepo.fields "name" members = false -> GitHubRepo.Name repo = "")
  /\ (names_field GitHubRepo.fields "private" members = false ->
      GitHubRepo.Private repo = false).
Proof.
  intros E repo. unfold repo, Unmarshal. rewrite E. cbn [value_into].
  repeat split; intros Hn.
  - apply (object_absent GitHubRepo.fields GitHubRepo.CloneURL "clone_url"); [|assumption].
    intros f [<-|[<-|[<-|[<-|[]]]]] Hne a v; cbn in *; congruence.
  - apply (object_absent GitHubRepo.fields GitHubRepo.Description "description"); [|assumption].
    intros f [<-|[<-|[<-|[<-|[]]]]] Hne a v; cbn in *; congruence.
  - apply (object_absent GitHubRepo.fields GitHubRepo.Name "name"); [|assumption].
    intros f [<-|[<-|[<-|[<-|[]]]]] Hne a v; cbn in *; congruence.
  - apply (object_absent GitHubRepo.fields GitHubRepo.Private "private"); [|assumption].
    intros f [<-|[<-|[<-|[<-|[]]]]] Hne a v; cbn in *; congruence.
Qed.

(** The status code takes no part in the failure, the decoding or the
    closing of an answer. *)
Lemma with_status_failure `{Library} {T} (fields : list (field T)) (zero : T) code answer :
  failure fields zero (with_status code answer) = failure fields zero answer.
Proof. now destruct answer. Qed.

Lemma with_status_decoded `{Library} {T} (fields : list (field T)) (zero : T) code answer :
  decoded fields zero (with_status code answer) = decoded fields zero answer.
Proof. now destruct answer. Qed.

Lemma with_status_closing code answer : closing (with_status code answer) = closing answer.
Proof. now destruct answer. Qed.

(** ** The claim about GitHub's answer *)

(** C4, what the code does with a body that is valid JSON and not an
    object: the text [[]] is valid JSON, the decoding into the descriptor
    fails, the error is logged and the iteration abandoned; nothing is
    sent to Gitea. *)
Lemma valid_json_not_decoded :
  Reference.read "[]" = Some (JArr [])
  /\ @migrateRepo Reference.library
       (Scenario.start ["https://github.com/acme/widgets" ++ nl]
          [Scenario.answer 200 "[]"; Scenario.answer 201 Scenario.created])
     = (Done tt,
        {| env := fun _ => ""; options := Scenario.config; stdin := [];
           network := [Scenario.answer 201 Scenario.created];
           trace := [ Stdout prompt;
                      Log ("Getting GitHub repo info..." ++ nl);
                      Sent (github_request Scenario.config "acme" "widgets");
                      LogErr (UnmarshalTypeError "array" "") ] |}).
Proof. split; reflexivity. Qed.

(** C4, as amended: the status code of GitHub's answer is never looked at.
    An answer decodes without error exactly when its body is read and is
    [null] or a JSON object whose members that name a descriptor field hold
    a value of the field's type or null, which covers the error objects of
    a 404 or 401 answer. For every such answer the descriptor is logged,
    its fields that the body does not name are zero, and the iteration
    goes on to attempt the migration with it: the migration request is
    built from the descriptor and sent to Gitea, unless no URL can be built
    from the configured Gitea instance, in which case that error is logged
    and nothing is sent. Every other answer, valid JSON of another shape
    included, is an error that is logged and abandons the iteration after
    the request to GitHub. *)
Theorem github_status_not_inspected `{Library} (st : state) (url : string) (c : ascii)
  (whole username repoName : string) (resp : Response) (more : list (Response + error)) :
  input_line st = url ++ String c "" ->
  FindStringSubmatch re url = [whole; username; repoName] ->
  url_ok (URL (github_request (options st) username repoName)) = true ->
  network st = inl resp :: more ->
  let repo := decoded GitHubRepo.fields GitHubRepo.zero (inl resp) in
  (forall code,
     migrateRepo (with_network st (with_status code (inl resp) :: more)) = migrateRepo st)
  /\ (failure GitHubRepo.fields GitHubRepo.zero (inl resp) = None
      <-> read_err (Body resp) = None
          /\ (json_syntax (data (Body resp)) = Some JNull \/
              exists members,
                json_syntax (data (Body resp)) = Some (JObj members)
                /\ well_typed GitHubRepo.fields members = true))
  /\ (json_syntax (data (Body resp)) = Some JNull -> repo = GitHubRepo.zero)
  /\ (forall members,
        json_syntax (data (Body resp)) = Some (JObj members) ->
        (names_field GitHubRepo.fields "clone_url" members = false ->
         GitHubRepo.CloneURL repo = "")
        /\ (names_field GitHubRepo.fields "description" members = false ->
            GitHubRepo.Description repo = "")
        /\ (names_field GitHubRepo.fields "name" members = false -> GitHubRepo.Name repo = "")
        /\ (names_field GitHubRepo.fields "private" members = false ->
            GitHubRepo.Private repo = false))
  /\ (failure GitHubRepo.fields GitHubRepo.zero (inl resp) = None ->
      migrateRepo st =
        (Done tt,
         {| env := env st; options := options st; stdin := input_rest st;
            network := if url_ok (gitea_url (options st)) then tl more else more;
            trace := trace st ++
              [ Stdout prompt;
                Log ("Getting GitHub repo info..." ++ nl);
                Sent (github_request (options st) username repoName);
                got_repo (GitHubRepo.Name repo) ] ++
              (if url_ok (gitea_url (options st)) then
                 Log ("Creating Gitea repository..." ++ nl)
                 :: Sent (gitea_request (options st)
                            (json_text (MigrateRepoOptions.to_json
                                          (migrateOptions (options st) repo))))
                 :: after_gitea (next_answer more)
               else [LogErr (UrlError (gitea_url (options st)))]) ++
              closing (inl resp) |}))
  /\ (forall e,
        failure GitHubRepo.fields GitHubRepo.zero (inl resp) = Some e ->
        migrateRepo st =
          (Done tt,
           {| env := env st; options := options st; stdin := input_rest st;
              network := more;
              trace := trace st ++
                [ Stdout prompt;
                  Log ("Getting GitHub repo info..." ++ nl);
                  Sent (github_request (options st) username repoName);
                  LogErr e ] ++
                closing (inl resp) |})).
Proof.
  intros Hl Hm Hu Hn repo. split; [|split; [|split; [|split; [|split]]]].
  - intros code.
    rewrite (migrateRepo_fetch st url c whole username repoName Hl Hm Hu).
    rewrite (migrateRepo_fetch (with_network st (with_status code (inl resp) :: more))
               url c whole username repoName Hl Hm Hu).
    rewrite Hn. unfold with_network. cbn [env options stdin network trace next_answer tl].
    unfold input_rest. cbn [stdin].
    unfold posts, after_github.
    rewrite (with_status_failure GitHubRepo.fields GitHubRepo.zero code (inl resp)).
    rewrite (with_status_decoded GitHubRepo.fields GitHubRepo.zero code (inl resp)).
    rewrite (with_status_closing code (inl resp)).
    reflexivity.
  - unfold failure. destruct (read_err (Body resp)) as [e|].
    + split; [discriminate | intros [E _]; discriminate].
    + rewrite Unmarshal_ok_iff. tauto.
  - intros E. unfold repo, decoded, Unmarshal. now rewrite E.
  - intros members E. exact (GitHubRepo_absent (data (Body resp)) members E).
  - intros Hf.
    rewrite (migrateRepo_fetch st url c whole username repoName Hl Hm Hu).
    unfold posts, after_github. rewrite Hn. cbn [next_answer tl]. rewrite Hf.
    fold repo. destruct (url_ok (gitea_url (options st))); cbn [app]; reflexivity.
  - intros e Hf.
    rewrite (migrateRepo_fetch st url c whole username repoName Hl Hm Hu).
    unfold posts, after_github. rewrite Hn. cbn [next_answer tl]. rewrite Hf.
    reflexivity.
Qed.

(** GitHub answers 404 with its error object: the iteration is the one of
    a 200 answer with the same body; the descriptor is empty, and the
    migration of a repository without a name is requested. *)
Lemma github_status_not_inspected_witness :
  @migrateRepo Reference.library
    (Scenario.start ["https://github.com/acme/missing" ++ nl]
       [Scenario.answer 200 Scenario.not_found; Scenario.answer 422 Scenario.not_created])
  = @migrateRepo Reference.library
      (Scenario.start ["https://github.com/acme/missing" ++ nl]
         [Scenario.answer 404 Scenario.not_found; Scenario.answer 422 Scenario.not_created])
  /\ trace (snd (@migrateRepo Reference.library
                   (Scenario.start ["https://github.com/acme/missing" ++ nl]
                      [Scenario.answer 404 Scenario.not_found;
                       Scenario.answer 422 Scenario.not_created])))
     = [ Stdout prompt;
         Log ("Getting GitHub repo info..." ++ nl);
         Sent (github_request Scenario.config "acme" "missing");
         Log ("Got repo: " ++ nl);
         Log ("Creating Gitea repository..." ++ nl);
         Sent (gitea_request Scenario.config
                 (Reference.write
                    (MigrateRepoOptions.to_json
                       (MigrateRepoOptions.mk "" "" "" true false "" "acme" "github" true))));
         Log ("Wrong input?" ++ nl) ].
Proof.
  split; [|reflexivity].
  exact (proj1 (@github_status_not_inspected Reference.library
                  (Scenario.start ["https://github.com/acme/missing" ++ nl]
                     [Scenario.answer 404 Scenario.not_found;
                      Scenario.answer 422 Scenario.not_created])
                  "https://github.com/acme/missing" "010"
                  "github.com/acme/missing" "acme" "missing"
                  {| StatusCode := 404;
                     Body := {| data := Scenario.not_found; read_err := None;
                                close_err := None |} |}
                  [Scenario.answer 422 Scenario.not_created]
                  eq_refl eq_refl eq_refl eq_refl) 200%Z).
Defined.

(** ** The configuration *)

Lemma preserves_ret {A} (a : A) : preserves_options (ret a).
Proof. intros st. now split. Qed.

Lemma preserves_panic {A} (msg : string) : preserves_options (@panic A msg).
Proof. intros st. now split. Qed.

Lemma preserves_emit (e : event) : preserves_options (emit e).
Proof. intros st. now split. Qed.

Lemma preserves_load {A} (proj : programOptions -> A) : preserves_options (load proj).
Proof. intros st. now split. Qed.

Lemma preserves_Getenv (name : string) : preserves_options (Getenv name).
Proof. intros st. now split. Qed.

Lemma preserves_ReadString : preserves_options ReadString.
Proof.
  intros st. unfold ReadString.
  destruct (read_line "" (stdin st)) as [[line err] rest]. now split.
Qed.

Lemma preserves_Do (req : Request) : preserves_options (Do req).
Proof. intros st. unfold Do. destruct (network st); now split. Qed.

Lemma preserves_bind {A B} (m : M A) (f : A -> M B) :
  preserves_options m -> (forall a, preserves_options (f a)) -> preserves_options (bind m f).
Proof.
  intros Hm Hf st. unfold bind. specialize (Hm st).
  destruct (m st) as [[a|msg] st']; cbn [snd] in *; [|assumption].
  destruct (Hf a st') as [Ho He]. destruct Hm as [Ho' He']. split; congruence.
Qed.

Lemma preserves_defer {A} (cleanup : M unit) (body : M A) :
  preserves_options cleanup -> preserves_options body -> preserves_options (defer cleanup body).
Proof.
  intros Hc Hb st. unfold defer. specialize (Hb st).
  destruct (body st) as [r st']; cbn [snd] in *.
  destruct (Hc st') as [Ho He]. destruct Hb as [Ho' He']. split; congruence.
Qed.

Lemma preserves_Close (b : ReadCloser) : preserves_options (Close b).
Proof. unfold Close. destruct (close_err b); [apply preserves_emit | apply preserves_ret]. Qed.

Create HintDb frame.
#[local] Hint Resolve preserves_ret preserves_panic preserves_emit preserves_load
  preserves_Getenv preserves_ReadString preserves_Do preserves_Close : frame.

(** Go through a computation, one effect at a time. *)
Ltac frame :=
  repeat first
    [ progress (unfold Print, Println, Printf, LogError)
    | apply preserves_bind; [|intros ?]
    | apply preserves_defer
    | solve [auto with frame]
    | match goal with
      | |- preserves_options (match ?x with _ => _ end) => destruct x
      | |- preserves_options (if ?b then _ else _) => destruct b
      end ].

Lemma preserves_migrateRepo `{Library} : preserves_options migrateRepo.
Proof. unfold migrateRepo. cbv zeta. frame. Qed.

Lemma preserves_rounds `{Library} (n : nat) : preserves_options (rounds n).
Proof.
  induction n as [|n IH]; cbn [rounds]; [apply preserves_ret|].
  apply preserves_bind; [apply preserves_migrateRepo | intros _; exact IH].
Qed.

(** C9: the configuration is read from the environment once, when [main]
    starts, and no call of [migrateRepo] changes it: after a call, after
    any number of rounds of the loop, the struct behind the pointer
    [options] holds what it held, and after [main] it holds the four
    environment variables as they were at the start. *)
Theorem configuration_never_mutated `{Library} :
  (forall st, options (snd (migrateRepo st)) = options st)
  /\ (forall n st, options (snd (rounds n st)) = options st)
  /\ (forall n st,
        options (snd (main n st))
        = {| GiteaInstance := env st "GITEA_INSTANCE";
             GitHubToken := env st "GITHUB_TOKEN";
             GiteaToken := env st "GITEA_TOKEN";
             GiteaOwner := env st "GITEA_OWNER" |}).
Proof.
  split; [|split].
  - intros st. apply preserves_migrateRepo.
  - intros n st. apply preserves_rounds.
  - intros n st. unfold main, loadOptions, bind, Getenv, ret, assign_options, Print, emit, load.
    cbn [env options stdin network trace].
    match goal with |- options (snd (rounds n ?s)) = _ =>
      rewrite (proj1 (preserves_rounds n s)) end.
    reflexivity.
Qed.

(** * More properties of the code *)

(** ** The parser *)

(** X1: the parser returns [nil] or exactly three strings: the matched text,
    an owner and a repo, each of them not empty and without [/]. So the
    test [len(match) != 3] is the test for [nil], [match[1]] and [match[2]]
    are in range when it passes, and the path of the request to GitHub
    has exactly the two segments owner and repo after [/repos/]. *)
Theorem match_or_nothing (s : string) :
  FindStringSubmatch re s = []
  \/ exists whole o r,
       FindStringSubmatch re s = [whole; o; r]
       /\ segment o /\ segment r /\ whole = host ++ o ++ "/" ++ r.
Proof.
  unfold FindStringSubmatch. destruct (leftmost re s) as [[w cs]|] eqn:E; [right | now left].
  apply leftmost_Some_inv in E as (pre & o & r & post & (_ & Ho & Hr) & _ & -> & -> & _).
  exists (host ++ o ++ "/" ++ r), o, r. cbn. auto.
Qed.

(** X2: what the parser extracts is in the text: the owner and the repo
    stand in the first occurrence of the pattern, the matched text is
    [github.com/owner/repo], and the repo runs to the end of the text or to
    the next [/]. *)
Theorem match_is_first_occurrence (s whole o r : string) :
  FindStringSubmatch re s = [whole; o; r] ->
  exists pre post,
    occurrence s pre o r post
    /\ whole = host ++ o ++ "/" ++ r
    /\ (post = "" \/ exists t, post = String "/" t)
    /\ (forall pre' o' r' post',
          occurrence s pre' o' r' post' -> String.length pre <= String.length pre').
Proof.
  unfold FindStringSubmatch. destruct (leftmost re s) as [[w cs]|] eqn:E; [|discriminate].
  apply leftmost_Some_inv in E as (pre & o1 & r1 & post & O & Hst & -> & -> & Hmin).
  cbn. intros [= <- <- <-]. exists pre, post. apply stops_slash in Hst. auto.
Qed.

Lemma match_is_first_occurrence_witness :
  exists pre post,
    occurrence "https://www.github.com/acme/widgets/issues/7" pre "acme" "widgets" post
    /\ "github.com/acme/widgets" = host ++ "acme" ++ "/" ++ "widgets"
    /\ (post = "" \/ exists t, post = String "/" t)
    /\ (forall pre' o' r' post',
          occurrence "https://www.github.com/acme/widgets/issues/7" pre' o' r' post' ->
          String.length pre <= String.length pre').
Proof.
  exact (match_is_first_occurrence "https://www.github.com/acme/widgets/issues/7"
           "github.com/acme/widgets" "acme" "widgets" eq_refl).
Defined.

(** ** The line read from standard input *)


Lemma cut_line_None (s : string) : cut_line s = None <-> all_chars not_newline s = true.
Proof.
  induction s as [|a s IH]; cbn [cut_line all_chars]; [tauto|].
  unfold not_newline at 1. destruct (Ascii.eqb a "010"); cbn [negb andb].
  - split; discriminate.
  - rewrite <- IH. destruct (cut_line s) as [[l r]|]; split; congruence.
Qed.

Lemma cut_line_Some (s line rest : string) :
  cut_line s = Some (line, rest) ->
  exists body, line = body ++ nl /\ all_chars not_newline body = true /\ s = line ++ rest.
Proof.
  revert line rest. induction s as [|a s IH]; intros line rest; cbn [cut_line]; [discriminate|].
  destruct (Ascii.eqb a "010") eqn:Ea.
  - intros [= <- <-]. apply Ascii.eqb_eq in Ea as ->. now exists "".
  - destruct (cut_line s) as [[l r]|]; [|discriminate]. intros [= <- <-].
    destruct (IH l r eq_refl) as (body & -> & Hb & ->).
    exists (String a body). cbn [append all_chars]. unfold not_newline at 1.
    rewrite Ea. cbn. now rewrite Hb.
Qed.

(** What [ReadString] promises: no error and a line that ends in its only
    newline, or [io.EOF] with a text that holds no newline. *)
Lemma read_line_contract (chunks : list string) : forall acc,
  all_chars not_newline acc = true ->
  (snd (fst (read_line acc chunks)) = None /\
   exists body, fst (fst (read_line acc chunks)) = body ++ nl
                /\ all_chars not_newline body = true)
  \/ (snd (fst (read_line acc chunks)) = Some EOF /\
      all_chars not_newline (fst (fst (read_line acc chunks))) = true).
Proof.
  induction chunks as [|c chunks IH]; intros acc Ha; cbn [read_line].
  - right. cbn. auto.
  - destruct (cut_line c) as [[line rest]|] eqn:Ec.
    + left. cbn [fst snd]. split; [reflexivity|].
      apply cut_line_Some in Ec as (body & -> & Hb & _).
      exists (acc ++ body). rewrite append_assoc. split; [reflexivity|].
      now rewrite all_chars_append, Ha, Hb.
    + destruct c as [|a c]; [right; cbn; auto|].
      apply IH. apply cut_line_None in Ec. now rewrite all_chars_append, Ha, Ec.
Qed.

Lemma append_last_inj (a b : string) (c d : ascii) :
  a ++ String c "" = b ++ String d "" -> a = b /\ c = d.
Proof.
  revert b. induction a as [|x a IH]; intros [|y b]; cbn [append]; intros E.
  - now injection E.
  - injection E as _ E. destruct b; discriminate.
  - injection E as _ E. destruct a; discriminate.
  - injection E as -> E. apply IH in E as [-> ->]. auto.
Qed.

Lemma append_empty (a b : string) : a ++ b = "" -> a = "" /\ b = "".
Proof. destruct a; cbn; [auto | discriminate]. Qed.

Lemma cut_line_nonempty c line rest : cut_line c = Some (line, rest) -> line <> "".
Proof.
  destruct c as [|a c]; cbn [cut_line]; [discriminate|].
  destruct (Ascii.eqb a "010"); [intros [= <- _]; discriminate|].
  destruct (cut_line c) as [[l r]|]; [intros [= <- _]; discriminate | discriminate].
Qed.

(** What is read starts with what was read before. *)
Lemma read_line_prefix (chunks : list string) : forall acc,
  exists t, fst (fst (read_line acc chunks)) = acc ++ t.
Proof.
  induction chunks as [|c chunks IH]; intros acc; cbn [read_line].
  - exists "". cbn. now rewrite append_nil_r.
  - destruct (cut_line c) as [[line rest]|]; [now exists line|].
    destruct c as [|a c]; [exists ""; cbn; now rewrite append_nil_r|].
    destruct (IH (acc ++ String a c)) as (t & E).
    exists (String a c ++ t). now rewrite E, append_assoc.
Qed.

(** The read returns the empty string only at the end of the input: no
    chunk is left, or the next read brings no byte. *)
Lemma read_line_empty (chunks : list string) : forall acc,
  fst (fst (read_line acc chunks)) = ""
  <-> acc = "" /\ (chunks = [] \/ exists more, chunks = "" :: more).
Proof.
  intros acc. destruct chunks as [|c chunks]; cbn [read_line].
  - cbn. split; [intros ->; auto | tauto].
  - destruct (cut_line c) as [[line rest]|] eqn:Ec.
    + cbn [fst]. split.
      * intros E. apply append_empty in E as [_ E]. now apply cut_line_nonempty in Ec.
      * intros [_ [E | (more & E)]]; [discriminate|].
        injection E as -> _. discriminate.
    + destruct c as [|a c].
      * cbn [fst]. split; [intros ->; split; [reflexivity | right; now exists chunks] | tauto].
      * destruct (read_line_prefix chunks (acc ++ String a c)) as (t & ->). split.
        -- intros E. apply append_empty in E as [E _]. apply append_empty in E as [_ E].
           discriminate.
        -- intros [_ [E | (more & E)]]; discriminate.
Qed.

(** Every read uses up at least one chunk of the input. *)
Lemma read_line_rest (chunks : list string) : forall acc,
  chunks <> [] -> List.length (snd (read_line acc chunks)) < List.length chunks.
Proof.
  induction chunks as [|c chunks IH]; intros acc Hne; [congruence|]. cbn [read_line].
  destruct (cut_line c) as [[line rest]|]; cbn [snd List.length]; [lia|].
  destruct c as [|a c]; [cbn [snd]; lia|].
  destruct chunks as [|c' chunks']; [cbn; lia|].
  specialize (IH (acc ++ String a c) ltac:(discriminate)). cbn [List.length] in *. lia.
Qed.

(** X4: of the line read, the text handed to the parser (the line without
    its last byte) never holds a newline, and the read error that the
    program discards is nil exactly when the byte dropped is a newline:
    when it is not nil, the byte dropped is a byte of the text. *)
Theorem line_read_contract (st : state) (body : string) (c : ascii) :
  input_line st = body ++ String c "" ->
  all_chars not_newline body = true
  /\ (snd (fst (read_line "" (stdin st))) = None <-> c = "010"%char).
Proof.
  intros Hl. unfold input_line in *.
  destruct (read_line_contract (stdin st) "" eq_refl)
    as [[He (b & Eb & Hb)] | (He & Hall)].
  - rewrite Eb in Hl. apply append_last_inj in Hl as [-> <-].
    split; [assumption | tauto].
  - rewrite Hl in Hall. rewrite all_chars_append in Hall.
    apply andb_prop in Hall as [Hb Hc]. split; [assumption|].
    rewrite He. split; [discriminate|]. intros ->. discriminate.
Qed.

(** A line that arrives in two reads, with text behind its newline. *)
Lemma line_read_contract_witness :
  all_chars not_newline "github.com/acme/widgets" = true
  /\ (snd (fst (read_line ""
                  (stdin (Scenario.start ["github.com/"; "acme/widgets" ++ nl ++ "lost"] []))))
      = None <-> "010"%char = "010"%char).
Proof.
  exact (line_read_contract
           (Scenario.start ["github.com/"; "acme/widgets" ++ nl ++ "lost"] [])
           "github.com/acme/widgets" "010" eq_refl).
Defined.

(** ** The ways an iteration goes *)

Lemma migrateRepo_panic `{Library} (st : state) :
  input_line st = "" ->
  migrateRepo st =
    (Panicked panic_message,
     {| env := env st; options := options st; stdin := input_rest st;
        network := network st; trace := trace st ++ [Stdout prompt] |}).
Proof. intros Hl. enter. rewrite Hl. reflexivity. Qed.

Lemma migrateRepo_url_error `{Library} (st : state) (url : string) (c : ascii)
  (whole username repoName : string) :
  input_line st = url ++ String c "" ->
  FindStringSubmatch re url = [whole; username; repoName] ->
  url_ok (URL (github_request (options st) username repoName)) = false ->
  migrateRepo st =
    (Done tt,
     {| env := env st; options := options st; stdin := input_rest st;
        network := network st;
        trace := trace st ++
                   [Stdout prompt;
                    LogErr (UrlError (URL (github_request (options st) username repoName)))] |}).
Proof.
  intros Hl Hm Hu. enter. rewrite Hl, slice_to_last, Hm. cbn [List.length Nat.eqb negb nth].
  unfold NewRequest. cbn [github_request URL] in Hu |- *. rewrite Hu. finish.
Qed.

(** The four ways an iteration goes: the read returns nothing; the line
    holds no URL; the request to GitHub cannot be built; the request to
    GitHub is sent. *)
Lemma migrateRepo_cases `{Library} (st : state) :
  (input_line st = "" /\
   migrateRepo st =
     (Panicked panic_message,
      {| env := env st; options := options st; stdin := input_rest st;
         network := network st; trace := trace st ++ [Stdout prompt] |}))
  \/ (exists url c, input_line st = url ++ String c "" /\
      ((FindStringSubmatch re url = [] /\
        migrateRepo st =
          (Done tt,
           {| env := env st; options := options st; stdin := input_rest st;
              network := network st;
              trace := trace st ++ [Stdout prompt; Log ("Invalid GitHub URL" ++ nl)] |}))
       \/ (exists whole o r,
           FindStringSubmatch re url = [whole; o; r] /\
           ((url_ok (URL (github_request (options st) o r)) = false /\
             migrateRepo st =
               (Done tt,
                {| env := env st; options := options st; stdin := input_rest st;
                   network := network st;
                   trace := trace st ++
                     [Stdout prompt;
                      LogErr (UrlError (URL (github_request (options st) o r)))] |}))
            \/ (url_ok (URL (github_request (options st) o r)) = true /\
                migrateRepo st =
                  (Done tt,
                   {| env := env st; options := options st; stdin := input_rest st;
                      network := if posts (options st) (next_answer (network st))
                                 then tl (tl (network st)) else tl (network st);
                      trace := trace st ++
                        [Stdout prompt; Log ("Getting GitHub repo info..." ++ nl);
                         Sent (github_request (options st) o r)] ++
                        after_github (options st) (next_answer (network st))
                                     (next_answer (tl (network st))) |})))))).
Proof.
  destruct (string_dec (input_line st) "") as [E|N].
  - left. split; [assumption | now apply migrateRepo_panic].
  - right. destruct (last_byte_exists _ N) as (url & c & Hl). exists url, c. split; [assumption|].
    destruct (FindStringSubmatch_shape url) as [Hm | (whole & o & r & Hm)].
    + left. split; [assumption | now apply (migrateRepo_invalid st url c)].
    + right. exists whole, o, r. split; [assumption|].
      destruct (url_ok (URL (github_request (options st) o r))) eqn:Hu.
      * right. split; [reflexivity | now apply (migrateRepo_fetch st url c whole o r)].
      * left. split; [reflexivity | now apply (migrateRepo_url_error st url c whole o r)].
Qed.

Lemma stdin_after `{Library} (st : state) : stdin (snd (migrateRepo st)) = input_rest st.
Proof.
  destruct (migrateRepo_cases st)
    as [[E R] | (url & c & E & [[Hm R] | (w & o & r & Hm & [[Hu R] | [Hu R]])])];
    now rewrite R.
Qed.

(** An iteration panics when the read returns the empty string, and
    returns otherwise. *)
Lemma migrateRepo_result `{Library} (st : state) :
  (fst (migrateRepo st) = Panicked panic_message <-> input_line st = "")
  /\ (fst (migrateRepo st) = Done tt <-> input_line st <> "").
Proof.
  split.
  - destruct (migrateRepo_cases st)
      as [[E ->] | (url & c & E & [[_ ->] | (w & o & r & _ & [[_ ->] | [_ ->]])])]; cbn [fst];
      (split; [try discriminate; auto | try (intros _; reflexivity)]);
      intros E'; rewrite E in E'; destruct url; discriminate.
  - destruct (migrateRepo_cases st)
      as [[E ->] | (url & c & E & [[_ ->] | (w & o & r & _ & [[_ ->] | [_ ->]])])]; cbn [fst];
      (split; [try discriminate; intros _ | try (intros _; reflexivity); try congruence]);
      rewrite E; destruct url; discriminate.
Qed.



(** X6: the slice of the empty string is the only panic of an iteration: the
    call panics exactly when the read returns the empty string, which is
    when the first read is at the end of the input (no chunk is left, or
    the read brings no byte), and returns normally otherwise, whatever the
    line, the network and the two services do. *)
Theorem panics_only_on_empty_read `{Library} (st : state) :
  (fst (migrateRepo st) = Panicked panic_message <-> input_line st = "")
  /\ (fst (migrateRepo st) = Done tt <-> input_line st <> "")
  /\ (input_line st = "" <-> stdin st = [] \/ exists more, stdin st = "" :: more).
Proof.
  split; [apply migrateRepo_result | split; [apply migrateRepo_result|]].
  unfold input_line. rewrite read_line_empty. tauto.
Qed.

(** ** The loop *)

Lemma rounds_panic `{Library} (n : nat) : forall st,
  List.length (stdin st) < n -> fst (rounds n st) = Panicked panic_message.
Proof.
  induction n as [|n IH]; intros st Hlen; [lia|].
  cbn [rounds]. unfold bind.
  destruct (string_dec (input_line st) "") as [E|N].
  - apply (proj1 (migrateRepo_result st)) in E.
    destruct (migrateRepo st) as [[[]|msg] st']; cbn [fst] in *; [discriminate | assumption].
  - pose proof (proj2 (proj2 (migrateRepo_result st)) N) as D.
    pose proof (stdin_after st) as S'.
    destruct (migrateRepo st) as [[[]|msg] st']; cbn [fst snd] in *; [|discriminate].
    apply IH. rewrite S'. unfold input_rest.
    destruct (stdin st) as [|c chunks] eqn:Es.
    + exfalso. apply N. unfold input_line. now rewrite Es.
    + pose proof (read_line_rest (c :: chunks) "" ltac:(discriminate)) as L.
      cbn [List.length] in *. lia.
Qed.

(** X7: on an input that ends, the loop ends in the panic: with [k] chunks
    left to read, the loop, and [main] with it, has panicked by its
    iteration [k + 1], whatever the lines hold and the network answers. *)
Theorem finite_input_ends_in_panic `{Library} (n : nat) (st : state) :
  List.length (stdin st) < n ->
  fst (rounds n st) = Panicked panic_message
  /\ fst (main n st) = Panicked panic_message.
Proof.
  intros Hlen. split; [now apply rounds_panic|].
  unfold main, loadOptions, bind, Getenv, ret, assign_options, Print, emit, load.
  cbn [env options stdin network trace].
  now apply rounds_panic.
Qed.

Lemma finite_input_ends_in_panic_witness :
  fst (@rounds Reference.library 3
         (Scenario.start ["gitlab.com/acme/widgets" ++ nl; "not a url" ++ nl] []))
  = Panicked panic_message
  /\ fst (@main Reference.library 3
            (Scenario.start ["gitlab.com/acme/widgets" ++ nl; "not a url" ++ nl] []))
     = Panicked panic_message.
Proof.
  apply (@finite_input_ends_in_panic Reference.library 3
           (Scenario.start ["gitlab.com/acme/widgets" ++ nl; "not a url" ++ nl] [])).
  cbn. lia.
Defined.

(** X8: an iteration that read anything is followed by the next one: no
    invalid line, no failure of the network, of the decoding or of Gitea
    ends the loop. *)
Theorem loop_goes_on `{Library} (n : nat) (st : state) :
  input_line st <> "" ->
  rounds (S n) st = rounds n (snd (migrateRepo st)).
Proof.
  intros Hne. cbn [rounds]. unfold bind.
  apply (proj2 (migrateRepo_result st)) in Hne.
  destruct (migrateRepo st) as [[[]|msg] st']; [reflexivity | discriminate].
Qed.

(** GitHub cannot be reached for the first line: the second line is
    handled next. *)
Lemma loop_goes_on_witness :
  @rounds Reference.library 2
    (Scenario.start ["https://github.com/acme/widgets" ++ nl; "github.com/acme/gears" ++ nl]
       [inr (IOError "no route to host"); Scenario.answer 404 Scenario.not_found])
  = @rounds Reference.library 1
      (snd (@migrateRepo Reference.library
              (Scenario.start
                 ["https://github.com/acme/widgets" ++ nl; "github.com/acme/gears" ++ nl]
                 [inr (IOError "no route to host"); Scenario.answer 404 Scenario.not_found]))).
Proof.
  apply (@loop_goes_on Reference.library 1
           (Scenario.start
              ["https://github.com/acme/widgets" ++ nl; "github.com/acme/gears" ++ nl]
              [inr (IOError "no route to host"); Scenario.answer 404 Scenario.not_found])).
  discriminate.
Defined.

(** ** The failures on the way *)

(** X9: when the request to GitHub cannot be built from the owner and repo
    found in the line ([http.NewRequest] returns an error), the error is
    logged and the iteration abandoned: nothing is sent and no answer of
    the network is used up. A line that ends in carriage return and
    newline is such a line: the carriage return stays in the repo. *)
Theorem unparsable_url_sends_nothing `{Library} (st : state) (url : string) (c : ascii)
  (whole username repoName : string) :
  input_line st = url ++ String c "" ->
  FindStringSubmatch re url = [whole; username; repoName] ->
  url_ok (URL (github_request (options st) username repoName)) = false ->
  migrateRepo st =
    (Done tt,
     {| env := env st; options := options st; stdin := input_rest st;
        network := network st;
        trace := trace st ++
                   [Stdout prompt;
                    LogErr (UrlError (URL (github_request (options st) username repoName)))] |}).
Proof. exact (migrateRepo_url_error st url c whole username repoName). Qed.

Lemma unparsable_url_sends_nothing_witness :
  @migrateRepo Reference.library
    (Scenario.start [Trouble.crlf_line] [Scenario.answer 200 Scenario.widgets])
  = (Done tt,
     {| env := fun _ => ""; options := Scenario.config; stdin := [];
        network := [Scenario.answer 200 Scenario.widgets];
        trace := [Stdout prompt;
                  LogErr (UrlError ("https://api.github.com/repos/acme/widgets"
                                    ++ String "013" ""))] |}).
Proof.
  exact (@unparsable_url_sends_nothing Reference.library
           (Scenario.start [Trouble.crlf_line] [Scenario.answer 200 Scenario.widgets])
           ("https://github.com/acme/widgets" ++ String "013" "") "010"
           ("github.com/acme/widgets" ++ String "013" "") "acme" ("widgets" ++ String "013" "")
           eq_refl eq_refl eq_refl).
Defined.

(** X10: when the request to GitHub fails (no answer, a body that cannot be
    read, a body that does not decode into the descriptor), the error
    is logged, the body is closed, and the iteration is abandoned after
    that one request: nothing is sent to Gitea, and the answer Gitea
    would give stays unused. *)
Theorem github_failure_abandons `{Library} (st : state) (url : string) (c : ascii)
  (whole username repoName : string) (e : error) :
  input_line st = url ++ String c "" ->
  FindStringSubmatch re url = [whole; username; repoName] ->
  url_ok (URL (github_request (options st) username repoName)) = true ->
  failure GitHubRepo.fields GitHubRepo.zero (next_answer (network st)) = Some e ->
  migrateRepo st =
    (Done tt,
     {| env := env st; options := options st; stdin := input_rest st;
        network := tl (network st);
        trace := trace st ++
                   [Stdout prompt; Log ("Getting GitHub repo info..." ++ nl);
                    Sent (github_request (options st) username repoName);
                    LogErr e] ++ closing (next_answer (network st)) |}).
Proof.
  intros Hl Hm Hu Hf.
  rewrite (migrateRepo_fetch st url c whole username repoName Hl Hm Hu).
  unfold posts, after_github. rewrite Hf. reflexivity.
Qed.

Lemma github_failure_abandons_witness :
  @migrateRepo Reference.library
    (Scenario.start ["https://github.com/acme/widgets" ++ nl]
       [Scenario.answer 502 Trouble.html; Scenario.answer 201 Scenario.created])
  = (Done tt,
     {| env := fun _ => ""; options := Scenario.config; stdin := [];
        network := [Scenario.answer 201 Scenario.created];
        trace := [Stdout prompt; Log ("Getting GitHub repo info..." ++ nl);
                  Sent (github_request Scenario.config "acme" "widgets");
                  LogErr SyntaxError] |}).
Proof.
  exact (@github_failure_abandons Reference.library
           (Scenario.start ["https://github.com/acme/widgets" ++ nl]
              [Scenario.answer 502 Trouble.html; Scenario.answer 201 Scenario.created])
           "https://github.com/acme/widgets" "010" "github.com/acme/widgets" "acme" "widgets"
           SyntaxError eq_refl eq_refl eq_refl eq_refl).
Defined.

(** X11: a Gitea instance of which no URL can be built is found out only
    after GitHub has been asked: the descriptor is fetched and logged,
    then the error of [http.NewRequest] is logged, nothing is sent to
    Gitea, and the body of GitHub's answer is closed. *)
Theorem bad_instance_found_after_fetch `{Library} (st : state) (url : string) (c : ascii)
  (whole username repoName : string) :
  input_line st = url ++ String c "" ->
  FindStringSubmatch re url = [whole; username; repoName] ->
  url_ok (URL (github_request (options st) username repoName)) = true ->
  failure GitHubRepo.fields GitHubRepo.zero (next_answer (network st)) = None ->
  url_ok (gitea_url (options st)) = false ->
  migrateRepo st =
    (Done tt,
     {| env := env st; options := options st; stdin := input_rest st;
        network := tl (network st);
        trace := trace st ++
                   [Stdout prompt; Log ("Getting GitHub repo info..." ++ nl);
                    Sent (github_request (options st) username repoName);
                    got_repo (GitHubRepo.Name
                                (decoded GitHubRepo.fields GitHubRepo.zero
                                   (next_answer (network st))));
                    LogErr (UrlError (gitea_url (options st)))] ++
                   closing (next_answer (network st)) |}).
Proof.
  intros Hl Hm Hu Hf Hg.
  rewrite (migrateRepo_fetch st url c whole username repoName Hl Hm Hu).
  unfold posts, after_github. rewrite Hf, Hg. reflexivity.
Qed.

Lemma bad_instance_found_after_fetch_witness :
  @migrateRepo Reference.library
    {| env := fun _ => ""; options := Trouble.config_crlf;
       stdin := ["https://github.com/acme/widgets" ++ nl];
       network := [Scenario.answer 200 Scenario.widgets]; trace := [] |}
  = (Done tt,
     {| env := fun _ => ""; options := Trouble.config_crlf; stdin := []; network := [];
        trace := [Stdout prompt; Log ("Getting GitHub repo info..." ++ nl);
                  Sent (github_request Trouble.config_crlf "acme" "widgets");
                  Log ("Got repo: widgets" ++ nl);
                  LogErr (UrlError (gitea_url Trouble.config_crlf))] |}).
Proof.
  exact (@bad_instance_found_after_fetch Reference.library
           {| env := fun _ => ""; options := Trouble.config_crlf;
              stdin := ["https://github.com/acme/widgets" ++ nl];
              network := [Scenario.answer 200 Scenario.widgets]; trace := [] |}
           "https://github.com/acme/widgets" "010" "github.com/acme/widgets" "acme" "widgets"
           eq_refl eq_refl eq_refl eq_refl eq_refl).
Defined.

(** X12: the body of GitHub's answer is closed on every way out of the
    iteration: whenever GitHub answered, a failure of that close is the
    last entry of the trace, whatever happened after the answer came. *)
Theorem github_body_closed_last `{Library} (st : state) (url : string) (c : ascii)
  (whole username repoName : string) (resp : Response) (more : list (Response + error))
  (e : error) :
  input_line st = url ++ String c "" ->
  FindStringSubmatch re url = [whole; username; repoName] ->
  url_ok (URL (github_request (options st) username repoName)) = true ->
  network st = inl resp :: more ->
  close_err (Body resp) = Some e ->
  exists before, trace (snd (migrateRepo st)) = (before ++ [LogErr e])%list.
Proof.
  intros Hl Hm Hu Hn Hc.
  rewrite (migrateRepo_fetch st url c whole username repoName Hl Hm Hu).
  cbn [snd trace]. rewrite Hn. cbn [next_answer]. unfold after_github.
  cbn [closing]. rewrite Hc. rewrite !app_assoc. eexists. reflexivity.
Qed.

Lemma github_body_closed_last_witness :
  exists before,
    trace (snd (@migrateRepo Reference.library
                  (Scenario.start ["https://github.com/acme/widgets" ++ nl]
                     [Trouble.failing_close 502 Trouble.html])))
    = (before ++ [LogErr (IOError "close failed")])%list.
Proof.
  exact (@github_body_closed_last Reference.library
           (Scenario.start ["https://github.com/acme/widgets" ++ nl]
              [Trouble.failing_close 502 Trouble.html])
           "https://github.com/acme/widgets" "010" "github.com/acme/widgets" "acme" "widgets"
           {| StatusCode := 502;
              Body := {| data := Trouble.html; read_err := None;
                         close_err := Some (IOError "close failed") |} |}
           [] (IOError "close failed") eq_refl eq_refl eq_refl eq_refl eq_refl).
Defined.

(** X13: a Gitea answer whose body decodes, being a JSON object whose
    members that name a field hold a value of the field's type or null,
    and does not name [id], such as an error object, and whose status is
    none of 403, 409 and 422, is reported as "Repository creation failed":
    the identifier keeps its zero value. *)
Theorem missing_identifier_is_failure `{Library} (st : state) (url : string) (c : ascii)
  (whole username repoName : string) (github : Response + error) (resp : Response)
  (more : list (Response + error)) (members : list (string * json)) :
  input_line st = url ++ String c "" ->
  FindStringSubmatch re url = [whole; username; repoName] ->
  url_ok (URL (github_request (options st) username repoName)) = true ->
  network st = github :: inl resp :: more ->
  failure GitHubRepo.fields GitHubRepo.zero github = None ->
  url_ok (gitea_url (options st)) = true ->
  read_err (Body resp) = None ->
  json_syntax (data (Body resp)) = Some (JObj members) ->
  well_typed GiteaRepo.fields members = true ->
  names_field GiteaRepo.fields "id" members = false ->
  StatusCode resp <> 403%Z -> StatusCode resp <> 409%Z -> StatusCode resp <> 422%Z ->
  exists before,
    trace (snd (migrateRepo st))
    = (before ++ Log ("Repository creation failed" ++ nl) :: closing (inl resp)
         ++ closing github)%list.
Proof.
  intros Hl Hm Hu Hn Hf Hg Hr Hj Hw Hid H403 H409 H422.
  rewrite (migrateRepo_posted st url c whole username repoName github (inl resp) more
             Hl Hm Hu Hn Hf Hg).
  cbn [snd trace]. unfold after_gitea, gitea_outcome, failure, decoded, classify.
  rewrite Hr.
  assert (Hok : snd (Unmarshal GiteaRepo.fields (data (Body resp)) GiteaRepo.zero) = None).
  { apply Unmarshal_ok_iff. right. now exists members. }
  rewrite Hok. cbn [status_of].
  apply Z.eqb_neq in H403, H409, H422. rewrite H403, H409, H422.
  assert (Hz : GiteaRepo.Id (fst (Unmarshal GiteaRepo.fields (data (Body resp)) GiteaRepo.zero))
               = 0%Z).
  { unfold Unmarshal. rewrite Hj. cbn [value_into].
    rewrite (object_absent GiteaRepo.fields GiteaRepo.Id "id"); [reflexivity | | assumption].
    intros f [<-|[<-|[]]] Hne a v; cbn in *; congruence. }
  rewrite Hz. cbn [Z.eqb report].
  rewrite app_assoc. eexists. reflexivity.
Qed.

Lemma missing_identifier_is_failure_witness :
  exists before,
    trace (snd (@migrateRepo Reference.library
                  (Scenario.start ["https://github.com/acme/widgets" ++ nl]
                     [Scenario.answer 200 Scenario.widgets; Scenario.answer 500 Trouble.no_id])))
    = (before ++ Log ("Repository creation failed" ++ nl)
         :: closing (Scenario.answer 500 Trouble.no_id)
         ++ closing (Scenario.answer 200 Scenario.widgets))%list.
Proof.
  exact (@missing_identifier_is_failure Reference.library
           (Scenario.start ["https://github.com/acme/widgets" ++ nl]
              [Scenario.answer 200 Scenario.widgets; Scenario.answer 500 Trouble.no_id])
           "https://github.com/acme/widgets" "010" "github.com/acme/widgets" "acme" "widgets"
           (Scenario.answer 200 Scenario.widgets)
           {| StatusCode := 500;
              Body := {| data := Trouble.no_id; read_err := None; close_err := None |} |}
           [] [("message", JStr "internal error")]
           eq_refl eq_refl eq_refl eq_refl eq_refl eq_refl eq_refl eq_refl eq_refl eq_refl
           ltac:(discriminate) ltac:(discriminate) ltac:(discriminate)).
Defined.

(** ** What an iteration sends and prints *)

Lemma skipn_app_exact {A} (a b : list A) : skipn (List.length a) (a ++ b) = b.
Proof. induction a; [reflexivity | assumption]. Qed.

Lemma added_of_trace `{Library} (st : state) (l : list event) :
  trace (snd (migrateRepo st)) = (trace st ++ l)%list -> added st = l.
Proof. intros E. unfold added. rewrite E. apply skipn_app_exact. Qed.

Lemma requests_app (a b : list event) : requests (a ++ b) = (requests a ++ requests b)%list.
Proof.
  induction a as [|e a IH]; [reflexivity|]. destruct e; cbn [app requests]; now rewrite IH.
Qed.

Lemma requests_closing answer : requests (closing answer) = [].
Proof. destruct answer as [resp|e]; [|reflexivity]. cbn. now destruct (close_err (Body resp)). Qed.

Lemma requests_report o : requests [report o] = [].
Proof. now destruct o. Qed.

Lemma requests_after_github `{Library} opts github gitea :
  requests (after_github opts github gitea)
  = if posts opts github
    then [gitea_request opts
            (json_text (MigrateRepoOptions.to_json
               (migrateOptions opts (decoded GitHubRepo.fields GitHubRepo.zero github))))]
    else [].
Proof.
  unfold after_github, posts. rewrite requests_app, requests_closing, app_nil_r.
  destruct (failure GitHubRepo.fields GitHubRepo.zero github); [reflexivity|].
  unfold got_repo. cbn [requests].
  destruct (url_ok (gitea_url opts)); [|reflexivity].
  cbn [requests]. unfold after_gitea.
  change (report (gitea_outcome gitea) :: closing gitea)
    with ([report (gitea_outcome gitea)] ++ closing gitea)%list.
  now rewrite requests_app, requests_report, requests_closing.
Qed.

Lemma printed_app (a b : list event) : printed (a ++ b) = (printed a ++ printed b)%list.
Proof.
  induction a as [|e a IH]; [reflexivity|]. destruct e; cbn [app printed]; now rewrite IH.
Qed.

Lemma printed_closing answer : printed (closing answer) = [].
Proof. destruct answer as [resp|e]; [|reflexivity]. cbn. now destruct (close_err (Body resp)). Qed.

Lemma printed_after_github `{Library} opts github gitea :
  printed (after_github opts github gitea) = [].
Proof.
  unfold after_github. rewrite printed_app, printed_closing, app_nil_r.
  destruct (failure GitHubRepo.fields GitHubRepo.zero github); [reflexivity|].
  unfold got_repo. cbn [printed].
  destruct (url_ok (gitea_url opts)); [|reflexivity].
  cbn [printed]. unfold after_gitea.
  destruct (gitea_outcome gitea); cbn [report printed]; apply printed_closing.
Qed.

(** X14: an iteration only adds to the trace, the prompt first, and it sends
    nothing but the two requests of the program: no request at all, or
    the GET to GitHub for the owner and repo found in the line, followed,
    exactly when GitHub's answer decodes and the URL of Gitea can be
    built, by the POST to Gitea of the migration options made from the
    decoded descriptor. *)
Theorem requests_of_iteration `{Library} (st : state) :
  trace (snd (migrateRepo st)) = (trace st ++ added st)%list
  /\ hd_error (added st) = Some (Stdout prompt)
  /\ (requests (added st) = []
      \/ exists url c whole o r,
           input_line st = url ++ String c ""
           /\ FindStringSubmatch re url = [whole; o; r]
           /\ requests (added st)
              = github_request (options st) o r
                :: (if posts (options st) (next_answer (network st))
                    then [gitea_request (options st)
                            (json_text (MigrateRepoOptions.to_json
                               (migrateOptions (options st)
                                  (decoded GitHubRepo.fields GitHubRepo.zero
                                     (next_answer (network st))))))]
                    else [])).
Proof.
  destruct (migrateRepo_cases st)
    as [[E R] | (url & c & E & [[Hm R] | (w & o & r & Hm & [[Hu R] | [Hu R]])])];
    rewrite R; cbn [snd trace];
    match goal with |- (?t ++ ?l)%list = _ /\ _ =>
      assert (A : added st = l) by (apply added_of_trace; now rewrite R)
    end; rewrite A; (split; [reflexivity|]); (split; [reflexivity|]).
  - now left.
  - now left.
  - now left.
  - right. exists url, c, w, o, r. split; [assumption|]. split; [assumption|].
    cbn [app requests]. now rewrite requests_after_github.
Qed.

(** X15: requests and answers stay in step: an iteration uses up exactly as
    many answers of the network as it sends requests, and at most two. *)
Theorem answers_match_requests `{Library} (st : state) :
  network (snd (migrateRepo st)) = skipn (List.length (requests (added st))) (network st)
  /\ List.length (requests (added st)) <= 2.
Proof.
  destruct (migrateRepo_cases st)
    as [[E R] | (url & c & E & [[Hm R] | (w & o & r & Hm & [[Hu R] | [Hu R]])])];
    match type of R with _ = (_, {| trace := (?t ++ ?l)%list |}) =>
      assert (A : added st = l) by (apply added_of_trace; now rewrite R)
    end; rewrite A, R; cbn [snd network]; try (split; [reflexivity | cbn; lia]).
  cbn [app requests]. rewrite requests_after_github.
  destruct (posts (options st) (next_answer (network st))); cbn [List.length].
  - split; [|lia]. now destruct (network st) as [|a [|b l]].
  - split; [|lia]. now destruct (network st).
Qed.

Lemma printed_added `{Library} (st : state) : printed (added st) = [prompt].
Proof.
  destruct (migrateRepo_cases st)
    as [[E R] | (url & c & E & [[Hm R] | (w & o & r & Hm & [[Hu R] | [Hu R]])])];
    match type of R with _ = (_, {| trace := (?t ++ ?l)%list |}) =>
      assert (A : added st = l) by (apply added_of_trace; now rewrite R)
    end; rewrite A; try reflexivity.
  cbn [app printed]. now rewrite printed_after_github.
Qed.

Lemma trace_after `{Library} (st : state) :
  trace (snd (migrateRepo st)) = (trace st ++ added st)%list.
Proof.
  destruct (migrateRepo_cases st)
    as [[E R] | (url & c & E & [[Hm R] | (w & o & r & Hm & [[Hu R] | [Hu R]])])];
    match type of R with _ = (_, {| trace := (?t ++ ?l)%list |}) =>
      assert (A : added st = l) by (apply added_of_trace; now rewrite R)
    end; rewrite A, R; reflexivity.
Qed.

Lemma printed_rounds `{Library} (n : nat) : forall st,
  printed (trace (snd (rounds n st))) = (printed (trace st) ++ repeat prompt (begun n st))%list.
Proof.
  induction n as [|n IH]; intros st.
  - cbn. now rewrite app_nil_r.
  - cbn [rounds begun]. unfold bind.
    pose proof (trace_after st) as T. pose proof (printed_added st) as P.
    destruct (migrateRepo st) as [[[]|msg] st']; cbn [snd] in *.
    + rewrite IH, T, printed_app, P, <- app_assoc. reflexivity.
    + now rewrite T, printed_app, P.
Qed.

Lemma begun_bounds `{Library} (n : nat) : forall st,
  begun n st <= n
  /\ (1 <= n -> 1 <= begun n st)
  /\ (fst (rounds n st) = Done tt -> begun n st = n).
Proof.
  induction n as [|n IH]; intros st; cbn [begun rounds].
  - repeat split; lia.
  - unfold bind. destruct (migrateRepo st) as [[[]|msg] st']; cbn [fst].
    + destruct (IH st') as (Hle & _ & Hd). repeat split; try lia.
      intros D. now rewrite (Hd D).
    + repeat split; try lia. discriminate.
Qed.

Lemma main_rounds `{Library} (n : nat) (st : state) : main n st = rounds n (at_loop st).
Proof.
  unfold main, loadOptions, bind, Getenv, ret, assign_options, Print, emit, load, at_loop,
    banner.
  cbn [env options stdin network trace GiteaInstance GiteaOwner map].
  rewrite <- !app_assoc. reflexivity.
Qed.

(** X16: standard output carries the banner of [main] (the welcome line, the
    Gitea instance and the Gitea owner as the environment gives them) and
    after it exactly one prompt for each call of [migrateRepo] made,
    nothing else: outcomes and errors go to the logger, and the two tokens
    are not printed. The calls made in [n] rounds are [n] when the loop
    has not panicked, and at least one when there is a round. *)
Theorem stdout_is_banner_and_prompts `{Library} (n : nat) (st : state) :
  printed (trace (snd (main n st)))
  = (printed (trace st)
     ++ [ ("- Welcome to teamigrate -" ++ nl)%string;
          ("GITEA_INSTANCE: " ++ env st "GITEA_INSTANCE" ++ nl)%string;
          ("GITEA_OWNER: " ++ env st "GITEA_OWNER" ++ nl)%string ]
     ++ repeat prompt (begun n (at_loop st)))%list
  /\ begun n (at_loop st) <= n
  /\ (1 <= n -> 1 <= begun n (at_loop st))
  /\ (fst (main n st) = Done tt -> begun n (at_loop st) = n).
Proof.
  rewrite main_rounds. split; [|apply begun_bounds].
  rewrite printed_rounds. unfold at_loop at 1. cbn [trace].
  rewrite printed_app. unfold banner. cbn [map printed GiteaInstance GiteaOwner].
  rewrite <- app_assoc. reflexivity.
Qed.

(** ** The members of a body *)

Lemma object_app {T} (fields : list (field T)) ms1 : forall ms2 v saved,
  object fields (ms1 ++ ms2) v saved
  = object fields ms2 (fst (object fields ms1 v saved)) (snd (object fields ms1 v saved)).
Proof.
  induction ms1 as [|[key j] ms1 IH]; intros ms2 v saved; cbn [app object fst snd];
    [reflexivity|].
  destruct (lookup_field fields key) as [f|]; [|apply IH].
  destruct (literalStore (fkind f) j); apply IH.
Qed.

(** A key that is [name] up to the case of its letters names the field
    [Name] of the descriptor. *)
Lemma lookup_name (key : string) :
  foldName key = "NAME" ->
  lookup_field GitHubRepo.fields key
  = Some {| fname := "name"; fkind := KString;
            fset := fun a v => GitHubRepo.mk (GitHubRepo.CloneURL v)
                                 (GitHubRepo.Description v) a (GitHubRepo.Private v) |}.
Proof.
  intros Hk. unfold lookup_field, GitHubRepo.fields. cbn [find fname].
  destruct (String.eqb_spec "clone_url" key) as [<-|_]; [discriminate Hk|].
  destruct (String.eqb_spec "description" key) as [<-|_]; [discriminate Hk|].
  destruct (String.eqb_spec "name" key) as [<-|_]; [reflexivity|].
  destruct (String.eqb_spec "private" key) as [<-|_]; [discriminate Hk|].
  rewrite Hk. reflexivity.
Qed.

(** X17: the name of the descriptor is the string of the last member of
    GitHub's body whose key is [name], in any case of its letters:
    earlier members of that name are overwritten, and the members of other
    names do not touch it. *)
Theorem name_is_last_member `{Library} (body : string) (ms1 ms2 : list (string * json))
  (key s : string) :
  json_syntax body = Some (JObj (ms1 ++ (key, JStr s) :: ms2)) ->
  foldName key = "NAME" ->
  names_field GitHubRepo.fields "name" ms2 = false ->
  GitHubRepo.Name (fst (Unmarshal GitHubRepo.fields body GitHubRepo.zero)) = s.
Proof.
  intros Hj Hk Hn. unfold Unmarshal. rewrite Hj. cbn [value_into].
  rewrite object_app. cbn [object]. rewrite (lookup_name key Hk). cbn [fkind literalStore fset].
  rewrite (object_absent GitHubRepo.fields GitHubRepo.Name "name"); [reflexivity | | assumption].
  intros f [<-|[<-|[<-|[<-|[]]]]] Hne a v; cbn in *; congruence.
Qed.

Lemma name_is_last_member_witness :
  GitHubRepo.Name
    (fst (@Unmarshal Reference.library _ GitHubRepo.fields
            (Reference.ticks "{'name':'old','Name':'widgets','private':true}")
            GitHubRepo.zero))
  = "widgets".
Proof.
  exact (@name_is_last_member Reference.library
           (Reference.ticks "{'name':'old','Name':'widgets','private':true}")
           [("name", JStr "old")] [("private", JBool true)] "Name" "widgets"
           eq_refl eq_refl eq_refl).
Defined.
